(** * n64bootloader: the boot-transfer pipeline and its size tool

    A shallow embedding of [src/main.c] (the second-stage loader that runs
    on the console) and of [util/size2bin.c] (the host tool that produces
    the size word the loader reads), with the properties the
    specification states about them.

    Conventions.
    - [unsigned int], [u32], [Elf32_Word], [Elf32_Off], [Elf32_Addr] and
      data pointers are 32 bits wide on the target; they are values of [Z]
      in [[0, 2^32)] and every C operation on them wraps ([U32]).
    - The target CPU is big-endian: a 32-bit object is decoded from its
      four bytes most significant first ([decode_be]).
    - Memory is flat: 32-bit addresses, one byte each. [hdrbuf] is a C
      object of 256 bytes, a [list byte], and lies in memory at the
      address the platform gives; the map [ram : Z -> byte] holds memory
      everywhere else. What is read or written through a pointer
      ([phdr->p_type], [(void * )phdr->p_paddr]) goes to [hdrbuf] where
      the address is inside it and to [ram] where it is not, so the scan
      for a segment goes on behind [hdrbuf] and a transfer can overwrite
      the header it was described by.
    - The rest of the loader (its code and constants, its other
      variables, its stack, what the library keeps) lies in address
      ranges the platform names, and so does every other address under
      which the target shows the same bytes as under these or under the
      addresses of [hdrbuf]. The model does not describe a run beyond
      an access to them, nor beyond a word access through a misaligned
      pointer, which is an address error on the target: such a run is
      at [PUndefined], where the model ends.
    - The cartridge address space is a map [cart : Z -> byte].
    - What the loader does to the outside (console, debug window, cache
      operations, transfers, the call of the kernel) is recorded in
      order in the [trace] of the state.
    - The host of the size tool has 64-bit [long] and [off_t]; its byte
      order is a parameter. *)

From Stdlib Require Import ZArith Lia Bool List.
From Stdlib Require Import Strings.Byte Strings.String.
From stdpp Require Import base option list gmap strings.

Local Open Scope Z_scope.

(** ** Bytes *)

Definition byte_to_Z (b : byte) : Z := Z.of_N (Byte.to_N b).

Definition Z_to_byte (z : Z) : byte :=
  default x00 (Byte.of_N (Z.to_N (z mod 256))).

(** The bytes of a string literal, without a terminator. *)
Definition text (s : string) : list byte := list_byte_of_string s.

(** A string literal that ends in ["\n"]. *)
Definition line (s : string) : list byte := text s ++ [x0a].

(** Big-endian decoding of an object representation. *)
Definition decode_be (bs : list byte) : Z :=
  fold_left (fun acc b => acc * 256 + byte_to_Z b) bs 0.

(** Little-endian decoding, for the host side. *)
Definition decode_le (bs : list byte) : Z := decode_be (rev bs).

(** The object representation of a 32-bit value, both byte orders. *)
Definition encode_be32 (x : Z) : list byte :=
  [Z_to_byte (x / 2^24); Z_to_byte (x / 2^16); Z_to_byte (x / 2^8); Z_to_byte x].

Definition encode_le32 (x : Z) : list byte := rev (encode_be32 x).

(** ** 32-bit unsigned arithmetic *)

Module U32.
Definition modulus : Z := 2^32.
Definition wrap (x : Z) : Z := x mod modulus.
Definition add (x y : Z) : Z := wrap (x + y).
Definition sub (x y : Z) : Z := wrap (x - y).
(** [~c] for an [int] constant [c], converted to [unsigned int]. *)
Definition lnot (x : Z) : Z := wrap (Z.lnot x).
Definition land (x y : Z) : Z := Z.land x y.
Definition in_range (x : Z) : Prop := 0 <= x < modulus.
End U32.

(** ** Decimal conversion, as [%u] and [%ld] print it *)

Definition digit_char (d : Z) : byte := Z_to_byte (48 + d).

Definition digit_val (b : byte) : option Z :=
  let v := byte_to_Z b - 48 in
  if (0 <=? v) && (v <=? 9) then Some v else None.

(** The digits of [n], most significant first; [fuel] bounds their number. *)
Fixpoint utoa_aux (fuel : nat) (n : Z) (acc : list byte) : list byte :=
  match fuel with
  | O => acc
  | S f =>
      let acc' := digit_char (n mod 10) :: acc in
      if n / 10 =? 0 then acc' else utoa_aux f (n / 10) acc'
  end.

(** Twenty digits are enough for every 64-bit value. *)
Definition utoa (n : Z) : list byte := utoa_aux 20 n [].

(** A signed value: a minus sign before the digits of the magnitude. *)
Definition ltoa (n : Z) : list byte :=
  if n <? 0 then x2d :: utoa (- n) else utoa n.

(** The reader's side: a run of decimal digits back to its value. *)
Fixpoint atou_aux (acc : Z) (bs : list byte) : option Z :=
  match bs with
  | [] => Some acc
  | b :: r =>
      match digit_val b with
      | Some d => atou_aux (acc * 10 + d) r
      | None => None
      end
  end.

Definition atou (bs : list byte) : option Z :=
  match bs with
  | [] => None
  | _ => atou_aux 0 bs
  end.

(** ** The loader's data: [src/main.c] *)

(** [EI_CLASS], [ELFCLASS32] and the [p_type] value the scan looks for. *)
Definition EI_CLASS : Z := 4.
Definition ELFCLASS32 : Z := 1.
Definition PT_LOAD : Z := 1.

(** Field offsets of [Elf32_Ehdr] and [Elf32_Phdr], from the two struct
    declarations: [e_ident] takes 16 bytes, a [Elf32_Half] 2, the rest 4. *)
Definition OFF_e_entry : Z := 24.
Definition OFF_e_phoff : Z := 28.
Definition OFF_p_type : Z := 0.
Definition OFF_p_offset : Z := 4.
Definition OFF_p_paddr : Z := 12.
Definition OFF_p_filesz : Z := 16.
Definition OFF_p_memsz : Z := 20.
Definition SIZEOF_Elf32_Phdr : Z := 32.
Definition ALIGNOF_Elf32_Phdr : Z := 4.

(** [sizeof(hdrbuf)] and the cartridge address the image is stored at. *)
Definition HDRBUF_SIZE : Z := 256.
Definition CART_IMAGE : Z := 0xB0101000.

(** What the loader is started with: the cartridge contents, the boot
    chip identifier, whether the debug window answers the probe, the
    contents of memory, and where the loader itself lies in memory: the
    address of [hdrbuf], and the address ranges (first address and size)
    of everything else that is its own, which is its code and constants,
    its other variables ([buf], [bufl], [kernelsize], [disksize],
    [diskoff], [args], [env]), its stack and what the library keeps,
    together with the ranges that show the loader's bytes, those of
    [hdrbuf] included, under a second address. *)
Record platform := Platform {
  cart : Z -> byte;
  bootcic : Z;
  isviewer : bool;
  boot_ram : Z -> byte;
  hdrbuf_at : Z;
  reserved : list (Z * Z)
}.

(** A [const char *]: a string literal, a position inside [hdrbuf], or
    [NULL]. *)
Inductive cptr :=
| Literal (s : string)
| InHdrbuf (off : Z)
| Null.

(** [static const char *const args[]] and [env[]]. *)
Definition args : list cptr :=
  [Literal "hello"; InHdrbuf 0; InHdrbuf (0 + 128); Literal "root=/dev/n64cart"].

Definition env : list cptr := [Null].

Definition SIZEOF_ptr : Z := 4.

(** [sizeof] of an array of pointers. *)
Definition sizeof_table (t : list cptr) : Z := Z.of_nat (length t) * SIZEOF_ptr.

(** Where a transfer or a cache operation lands: one of the loader's own
    objects, or memory at an address. *)
Inductive target :=
| TKernelsize
| TDisksize
| THdrbuf
| TRam (addr : Z).

(** The progress lines. Each is written by the same three statements,
    [bufl = sprintf(buf, fmt, ...); printf(buf); isviewer_write(buf, bufl)],
    and carries the values passed to [sprintf]. *)
Inductive logline :=
| LogDetected
| LogRam (kb : Z)
| LogBooting (kernel_kb disk_kb : Z)
| LogAddress
| LogLoadAddress (p : Z)
| LogLoadOffset (p : Z)
| LogEntry (p : Z)
| LogDisk (off : Z)
| LogJumping (p : Z).

(** What the loader does to the outside, in order. *)
Inductive event :=
| EvConsoleInit
| EvRenderMode
| EvIsviewerProbe
| EvLog (l : logline)
| EvPrintf (out : list byte)
| EvIsviewerWrite (data : list byte)
| EvCacheWritebackInvalidate (t : target) (len : Z)
| EvCacheInvalidate (t : target) (len : Z)
| EvDmaRead (t : target) (pi_address len : Z)
| EvConsoleRender
| EvWaitMs (ms : Z)
| EvDisableInterrupts
| EvSetVIInterrupt (active line : Z)
| EvCall (entry argc : Z) (argv envp : list cptr) (reserved : cptr).

(** The blocks of [main], in source order. [PHalt] is the [while (1);]
    of the size check, [PKernel] is the kernel running after the call.
    [PUndefined] is where the model ends: a word access through a
    misaligned pointer, or an access to the loader's own storage other
    than [hdrbuf]. *)
Inductive phase :=
| PInit
| PReadSizes
| PCheckKernel
| PHalt
| PReadHeader
| PValidate
| PLocate
| PScan
| PLoad
| PEntry
| PMetadata
| PTransfer
| PKernel
| PUndefined.

Record state := State {
  pc : phase;
  ram : Z -> byte;
  hdrbuf : list byte;
  kernelsize : Z;
  disksize : Z;
  diskoff : Z;
  phdr : Z;
  funcptr : Z;
  trace : list event
}.

Definition goto (p : phase) (s : state) : state :=
  State p (ram s) (hdrbuf s) (kernelsize s) (disksize s) (diskoff s)
        (phdr s) (funcptr s) (trace s).

Definition emit (evs : list event) (s : state) : state :=
  State (pc s) (ram s) (hdrbuf s) (kernelsize s) (disksize s) (diskoff s)
        (phdr s) (funcptr s) (trace s ++ evs).

Definition set_ram (m : Z -> byte) (s : state) : state :=
  State (pc s) m (hdrbuf s) (kernelsize s) (disksize s) (diskoff s)
        (phdr s) (funcptr s) (trace s).

Definition set_hdrbuf (b : list byte) (s : state) : state :=
  State (pc s) (ram s) b (kernelsize s) (disksize s) (diskoff s)
        (phdr s) (funcptr s) (trace s).

Definition set_kernelsize (v : Z) (s : state) : state :=
  State (pc s) (ram s) (hdrbuf s) v (disksize s) (diskoff s)
        (phdr s) (funcptr s) (trace s).

Definition set_disksize (v : Z) (s : state) : state :=
  State (pc s) (ram s) (hdrbuf s) (kernelsize s) v (diskoff s)
        (phdr s) (funcptr s) (trace s).

Definition set_diskoff (v : Z) (s : state) : state :=
  State (pc s) (ram s) (hdrbuf s) (kernelsize s) (disksize s) v
        (phdr s) (funcptr s) (trace s).

Definition set_phdr (v : Z) (s : state) : state :=
  State (pc s) (ram s) (hdrbuf s) (kernelsize s) (disksize s) (diskoff s)
        v (funcptr s) (trace s).

Definition set_funcptr (v : Z) (s : state) : state :=
  State (pc s) (ram s) (hdrbuf s) (kernelsize s) (disksize s) (diskoff s)
        (phdr s) v (trace s).

(** ** Memory and buffer primitives *)

(** [n] bytes of a buffer from offset [off]; nothing when the range
    leaves the buffer. The bound is tested before the offset is used. *)
Definition sub_bytes (buf : list byte) (off : Z) (n : nat) : option (list byte) :=
  if (0 <=? off) && (off + Z.of_nat n <=? Z.of_nat (length buf))
  then Some (take n (drop (Z.to_nat off) buf))
  else None.

Definition read_u8 (buf : list byte) (off : Z) : option Z :=
  decode_be <$> sub_bytes buf off 1.

Definition read_u32 (buf : list byte) (off : Z) : option Z :=
  decode_be <$> sub_bytes buf off 4.

(** [bs] stored into a buffer from offset [off]; nothing when it does not
    fit. *)
Definition write_bytes (buf : list byte) (off : Z) (bs : list byte)
  : option (list byte) :=
  if (0 <=? off) && (off + Z.of_nat (length bs) <=? Z.of_nat (length buf))
  then Some (take (Z.to_nat off) buf ++ bs
             ++ drop (Z.to_nat off + length bs) buf)
  else None.

(** A 32-bit load from memory at an address. *)
Definition load32 (m : Z -> byte) (a : Z) : Z :=
  decode_be [m (U32.wrap a); m (U32.add a 1); m (U32.add a 2); m (U32.add a 3)].

(** [int] from the bits of an [unsigned int]. *)
Definition to_signed (x : Z) : Z :=
  if x <? 2^31 then x else x - U32.modulus.

(** [memset(dst, c, len)] on memory: the [len] addresses from [dst] on,
    counted modulo the address space. *)
Definition memset (m : Z -> byte) (dst : Z) (c : byte) (len : Z) : Z -> byte :=
  fun a => if U32.sub a dst <? len then c else m a.

(** Whether two address ranges, each given by its first address and its
    size and counted modulo the address space, share an address. *)
Definition touches (b size a len : Z) : bool :=
  (0 <? size) && (0 <? len)
  && ((U32.sub b a <? len) || (U32.sub a b <? size)).

(** [memset(buf + off, c, len)] on a buffer. *)
Definition memset_buf (buf : list byte) (off : Z) (c : byte) (len : nat)
  : option (list byte) :=
  write_bytes buf off (replicate len c).

(** The C string that starts a list of bytes: everything before the
    first NUL. *)
Fixpoint cstring (bs : list byte) : list byte :=
  match bs with
  | [] => []
  | b :: r => if Byte.eqb b x00 then [] else b :: cstring r
  end.

Definition cstring_at (buf : list byte) (off : nat) : list byte :=
  cstring (drop off buf).

(** [sprintf]'s expansion of a format with [%u] conversions; every other
    byte of the format is copied. *)
Fixpoint format (fmt : list byte) (vals : list Z) : list byte :=
  match fmt with
  | [] => []
  | c :: rest =>
      if Byte.eqb c x25 then
        match rest with
        | d :: rest' =>
            if Byte.eqb d x75 then
              match vals with
              | v :: vals' => utoa v ++ format rest' vals'
              | [] => format rest' []
              end
            else c :: d :: format rest' vals
        | [] => [c]
        end
      else c :: format rest vals
  end.

(** [sprintf(buf + off, fmt, vals...)]: the expansion and its NUL
    terminator stored at [off]; nothing when that overruns the buffer. *)
Definition sprintf (buf : list byte) (off : Z) (fmt : string) (vals : list Z)
  : option (list byte) :=
  write_bytes buf off (format (text fmt) vals ++ [x00]).

(** ** The loader's steps: [main] of [src/main.c] *)

Section Loader.

Variable hw : platform.

(** Modelled from the spec: libdragon's [dma_read(ram_address,
    pi_address, len)], whose source is not part of the repository,
    "copies length bytes from the flat external address space beginning
    at sourceOffset into destination". Into one of the loader's objects
    it yields the object's new bytes. *)
Definition dma_bytes (pi_address : Z) (len : nat) : list byte :=
  (fun i => cart hw (U32.add pi_address (Z.of_nat i))) <$> seq 0 len.

(** A 32-bit object filled by such a transfer, as the CPU then reads
    it. *)
Definition dma_u32 (pi_address : Z) : Z := decode_be (dma_bytes pi_address 4).

(** The same transfer into memory at an address. *)
Definition dma_read (m : Z -> byte) (dst pi_address len : Z) : Z -> byte :=
  fun a =>
    let i := U32.sub a dst in
    if i <? len then cart hw (U32.add pi_address i) else m a.

(** Whether an access of [len] bytes at [a] reaches the loader's own
    storage. *)
Definition hits_reserved (a len : Z) : bool :=
  existsb (fun r => touches (fst r) (snd r) a len) (reserved hw).

(** Memory as the CPU reads it: the bytes of [hdrbuf] at its address,
    [ram] everywhere else. *)
Definition view (s : state) : Z -> byte :=
  fun a =>
    let o := U32.sub a (hdrbuf_at hw) in
    if o <? HDRBUF_SIZE then default x00 (hdrbuf s !! Z.to_nat o)
    else ram s (U32.wrap a).

(** Memory after a store: every address holds what [m] says, [hdrbuf]
    the bytes at its address. *)
Definition install (m : Z -> byte) (s : state) : state :=
  set_hdrbuf
    ((fun j => m (U32.add (hdrbuf_at hw) (Z.of_nat j)))
       <$> seq 0 (Z.to_nat HDRBUF_SIZE))
    (set_ram m s).

(** A word load through a pointer. A word inside [hdrbuf] is read from
    it; elsewhere the word is what memory holds, unless the address is
    in the loader's own storage. *)
Definition fetch32 (s : state) (a : Z) : option Z :=
  if (HDRBUF_SIZE - 4 <? U32.sub a (hdrbuf_at hw)) && hits_reserved a 4
  then None
  else Some (load32 (view s) a).

(** The address of a field of [*phdr]. [phdr] is kept as its distance
    from [hdrbuf]; addresses are taken modulo the address space. *)
Definition phdr_field (s : state) (off : Z) : Z :=
  U32.add (hdrbuf_at hw) (phdr s + off).

(** [static] objects start zeroed. *)
Definition boot : state :=
  State PInit (boot_ram hw) (replicate (Z.to_nat HDRBUF_SIZE) x00) 0 0 0 0 0 [].

(** The end of what the model describes. *)
Definition undefined (s : state) : state := goto PUndefined s.

(** Lines 165-179: memory size, console, the debug window probe. *)
Definition do_init (s : state) : state :=
  let osMemSize :=
    to_signed (load32 (ram s)
                 (if bootcic hw =? 6105 then 0xA00003F0 else 0xA0000318)) in
  let s := emit [EvConsoleInit; EvRenderMode; EvIsviewerProbe] s in
  let s := if isviewer hw then emit [EvLog LogDetected] s else s in
  let s := emit [EvLog (LogRam (U32.wrap (Z.quot osMemSize 1024)))] s in
  goto PReadSizes s.

(** Lines 181-187: the two size words before the image, and [diskoff]. *)
Definition do_read_sizes (s : state) : state :=
  let s := emit [EvCacheWritebackInvalidate TKernelsize 4;
                 EvDmaRead TKernelsize (U32.sub CART_IMAGE 4) 4] s in
  let s := set_kernelsize (dma_u32 (U32.sub CART_IMAGE 4)) s in
  let s := emit [EvCacheWritebackInvalidate TDisksize 4;
                 EvDmaRead TDisksize (U32.sub CART_IMAGE 8) 4] s in
  let s := set_disksize (dma_u32 (U32.sub CART_IMAGE 8)) s in
  let s := set_diskoff
             (U32.land (U32.add (kernelsize s) 4095) (U32.lnot 4095)) s in
  goto PCheckKernel s.

(** Lines 188-194: [if (!kernelsize) { printf(...); while (1); }]. *)
Definition do_check_kernel (s : state) : state :=
  if kernelsize s =? 0
  then goto PHalt (emit [EvPrintf (line "No kernel configured")] s)
  else goto PReadHeader s.

(** Lines 196-207: two progress lines, then the first 256 bytes of the
    image into [hdrbuf]. *)
Definition do_read_header (s : state) : state :=
  let s := emit [EvLog (LogBooting (kernelsize s / 1024) (disksize s / 1024));
                 EvLog LogAddress] s in
  let s := emit [EvDmaRead THdrbuf CART_IMAGE 256] s in
  let s := set_hdrbuf (dma_bytes CART_IMAGE 256) s in
  let s := emit [EvCacheInvalidate THdrbuf 256] s in
  goto PValidate s.

(** [ptr->e_ident[i]]. *)
Definition e_ident (s : state) (i : Z) : option Z := read_u8 (hdrbuf s) i.

(** [ptr->e_ident[i] != c]; outside the buffer there is no answer. *)
Definition ident_differs (s : state) (i c : Z) : option bool :=
  (fun v => negb (v =? c)) <$> e_ident s i.

(** Lines 209-215: the two checks; each one only prints. *)
Definition do_validate (s : state) : state :=
  match ident_differs s 1 (byte_to_Z "E"), ident_differs s 2 (byte_to_Z "L"),
        ident_differs s 3 (byte_to_Z "F"), ident_differs s EI_CLASS ELFCLASS32
  with
  | Some d1, Some d2, Some d3, Some dc =>
      let s := if d1 || d2 || d3
               then emit [EvPrintf (line "Not an ELF kernel?")] s else s in
      let s := if dc
               then emit [EvPrintf (line "Not a 32-bit kernel?")] s else s in
      goto PLocate s
  | _, _, _, _ => undefined s
  end.

(** Line 218: [phdr = (Elf32_Phdr * )(hdrbuf + ptr->e_phoff)]. The
    pointer is kept as its distance from [hdrbuf]. [hdrbuf] is aligned
    to 16, so the pointer is aligned for the word loads of
    [phdr->p_type] exactly when [e_phoff] is a multiple of 4; the
    conversion of any other value is undefined, and the target CPU
    raises an address error on the load. *)
Definition do_locate (s : state) : state :=
  match read_u32 (hdrbuf s) OFF_e_phoff with
  | Some e_phoff =>
      if e_phoff mod ALIGNOF_Elf32_Phdr =? 0
      then goto PScan (set_phdr e_phoff s)
      else undefined s
  | None => undefined s
  end.

(** Lines 219-220, one turn of [while (phdr->p_type != 1) phdr++]. The
    loop has no bound: behind [hdrbuf] it reads whatever memory holds. *)
Definition do_scan (s : state) : state :=
  match fetch32 s (phdr_field s OFF_p_type) with
  | Some p_type =>
      if p_type =? PT_LOAD
      then goto PLoad s
      else set_phdr (phdr s + SIZEOF_Elf32_Phdr) s
  | None => undefined s
  end.

(** Lines 222-240: the two progress lines, the transfer of the
    file-backed bytes, the cache operation on them, and the zeroing of
    the rest. Every [phdr->...] is a load at the time the statement
    runs: the cache operation and the zeroing read the fields again,
    after the transfer, which may have stored to them. *)
Definition do_load (s : state) : state :=
  match fetch32 s (phdr_field s OFF_p_paddr),
        fetch32 s (phdr_field s OFF_p_offset),
        fetch32 s (phdr_field s OFF_p_filesz) with
  | Some p_paddr, Some p_offset, Some p_filesz =>
      let src := U32.add CART_IMAGE p_offset in
      let s := emit [EvLog (LogLoadAddress p_paddr);
                     EvLog (LogLoadOffset src)] s in
      let len := U32.land (U32.add p_filesz 1) (U32.lnot 1) in
      if hits_reserved p_paddr len then undefined s else
      let s := emit [EvDmaRead (TRam p_paddr) src len] s in
      let s := install (dma_read (view s) p_paddr src len) s in
      match fetch32 s (phdr_field s OFF_p_paddr),
            fetch32 s (phdr_field s OFF_p_filesz),
            fetch32 s (phdr_field s OFF_p_memsz) with
      | Some p_paddr, Some p_filesz, Some p_memsz =>
          let s := emit [EvCacheWritebackInvalidate (TRam p_paddr)
                           (U32.land (U32.add p_filesz 3) (U32.lnot 3))] s in
          if p_filesz <? p_memsz then
            let dst := U32.add p_paddr p_filesz in
            let n := U32.sub p_memsz p_filesz in
            if hits_reserved dst n then undefined s
            else goto PEntry (install (memset (view s) dst x00 n) s)
          else goto PEntry s
      | _, _, _ => undefined s
      end
  | _, _, _ => undefined s
  end.

(** Lines 242-246: [funcptr = (void * )ptr->e_entry] and its progress
    line. *)
Definition do_entry (s : state) : state :=
  match read_u32 (hdrbuf s) OFF_e_entry with
  | Some e_entry =>
      goto PMetadata
        (emit [EvLog (LogEntry e_entry)] (set_funcptr e_entry s))
  | None => undefined s
  end.

(** Lines 249-253: [hdrbuf] cleared, then the two records. *)
Definition write_metadata (buf : list byte) (start size : Z)
  : option (list byte) :=
  buf ← memset_buf buf 0 x00 256;
  buf ← sprintf buf 0 "n64cart.start=%u" [start];
  sprintf buf (0 + 128) "n64cart.size=%u" [size].

(** Lines 248-266: the records, then what is printed about them. *)
Definition do_metadata (s : state) : state :=
  match write_metadata (hdrbuf s) (U32.add CART_IMAGE (diskoff s)) (disksize s) with
  | Some buf =>
      let s := set_hdrbuf buf s in
      let s := emit [EvLog (LogDisk (diskoff s));
                     EvPrintf (cstring_at (hdrbuf s) 0 ++ [x0a]);
                     EvPrintf (cstring_at (hdrbuf s) 128 ++ [x0a]);
                     EvIsviewerWrite (hdrbuf s);
                     EvLog (LogJumping (funcptr s));
                     EvConsoleRender;
                     EvWaitMs 1024] s in
      goto PTransfer s
  | None => undefined s
  end.

(** Lines 268-272: interrupts off, then the call. *)
Definition do_transfer (s : state) : state :=
  let s := emit [EvDisableInterrupts; EvSetVIInterrupt 0 0] s in
  let argc := sizeof_table args / SIZEOF_ptr in
  goto PKernel (emit [EvCall (funcptr s) argc args env Null] s).

Definition step (s : state) : state :=
  match pc s with
  | PInit => do_init s
  | PReadSizes => do_read_sizes s
  | PCheckKernel => do_check_kernel s
  | PHalt => s
  | PReadHeader => do_read_header s
  | PValidate => do_validate s
  | PLocate => do_locate s
  | PScan => do_scan s
  | PLoad => do_load s
  | PEntry => do_entry s
  | PMetadata => do_metadata s
  | PTransfer => do_transfer s
  | PKernel => s
  | PUndefined => s
  end.

(** [n] steps from a state, and [main] run for [n] steps. *)
Fixpoint run (n : nat) (s : state) : state :=
  match n with
  | O => s
  | S k => run k (step s)
  end.

Definition main (n : nat) : state := run n boot.

End Loader.

(** ** Notions the properties are stated with *)

(** No byte of a list is NUL. *)
Definition no_nul (l : list byte) : Prop := Forall (fun b => b <> x00) l.

(** The reader's side of the round trip in the specification: a record
    is its key followed by a decimal number. *)
Fixpoint strip_prefix (key rec : list byte) : option (list byte) :=
  match key, rec with
  | [], r => Some r
  | k :: key', b :: r => if Byte.eqb k b then strip_prefix key' r else None
  | _ :: _, [] => None
  end.

Definition parse_record (key : string) (rec : list byte) : option Z :=
  strip_prefix (text key) rec ≫= atou.

(** The loader's objects keep their C types: [hdrbuf] has 256 bytes and
    the three sizes are 32-bit values. *)
Definition wf (s : state) : Prop :=
  length (hdrbuf s) = 256%nat /\ U32.in_range (kernelsize s)
  /\ U32.in_range (disksize s) /\ U32.in_range (diskoff s).

(** The order of the blocks in [main]; no block jumps backwards. *)
Definition phase_rank (p : phase) : nat :=
  match p with
  | PInit => 0 | PReadSizes => 1 | PCheckKernel => 2 | PHalt => 3
  | PReadHeader => 4 | PValidate => 5 | PLocate => 6 | PScan => 7
  | PLoad => 8 | PEntry => 9 | PMetadata => 10 | PTransfer => 11
  | PKernel => 12 | PUndefined => 13
  end.

(** Everything of a state but its trace. *)
Definition machine (s : state) :=
  (pc s, ram s, hdrbuf s, kernelsize s, disksize s, diskoff s, phdr s, funcptr s).

Definition is_call (e : event) : bool :=
  match e with EvCall _ _ _ _ _ => true | _ => false end.

(** The identification bytes the validator looks at, read off the
    buffer: bytes 1 to 3 spell ELF, byte [EI_CLASS] is [ELFCLASS32]. *)
Definition magic_ok (buf : list byte) : Prop :=
  buf !! 1%nat = Some "E"%byte /\ buf !! 2%nat = Some "L"%byte
  /\ buf !! 3%nat = Some "F"%byte.

Definition class_ok (buf : list byte) : Prop := buf !! 4%nat = Some x01.

(** The four descriptor fields the block reads through [phdr], as
    memory holds them when the block starts. *)
Definition segment_at (hw : platform) (s : state)
    (p_paddr p_offset p_filesz p_memsz : Z) : Prop :=
  fetch32 hw s (phdr_field hw s OFF_p_paddr) = Some p_paddr
  /\ fetch32 hw s (phdr_field hw s OFF_p_offset) = Some p_offset
  /\ fetch32 hw s (phdr_field hw s OFF_p_filesz) = Some p_filesz
  /\ fetch32 hw s (phdr_field hw s OFF_p_memsz) = Some p_memsz.

(** A store of [len] bytes at [a] that stays clear of the loader's own
    storage. *)
Definition clear_of_loader (hw : platform) (a len : Z) : Prop :=
  hits_reserved hw a len = false.

(** A store that leaves alone the first [n] bytes of [*phdr] from the
    field [p_paddr] on. The fields the block reads again after the
    transfer lie in a row: [p_paddr], which the first 4 bytes are,
    [p_filesz], which makes 8, and [p_memsz], which makes 12. The cache
    operation reads the first two, the zeroing all three. *)
Definition spares_fields (hw : platform) (s : state) (n a len : Z) : Prop :=
  touches (phdr_field hw s OFF_p_paddr) n a len = false.

Definition spares_descriptor (hw : platform) (s : state) (a len : Z) : Prop :=
  spares_fields hw s 12 a len.


(** ** The host tool: [util/size2bin.c] *)

Module Size2bin.

(** [long] and [off_t] on the host are 64 bits wide and signed; the
    result of an operation is brought back into their range. *)
Definition wrap_long (x : Z) : Z := (x + 2^63) mod 2^64 - 2^63.

(** [bswap_32] of [<byteswap.h>]. *)
Definition bswap_32 (x : Z) : Z :=
  Z.lor (Z.lor (Z.lor (Z.shiftr (Z.land x 0xff000000) 24)
                      (Z.shiftr (Z.land x 0x00ff0000) 8))
               (Z.shiftl (Z.land x 0x0000ff00) 8))
        (Z.shiftl (Z.land x 0x000000ff) 24).

(** The host: its files by name, which names [fopen(name, "w")] can
    open, and its byte order. *)
Record host := Host {
  files : gmap string (list byte);
  can_create : string -> bool;
  little_endian : bool
}.

(** How a run ends: [return] from [main] with what was printed and the
    files as they are then, or a crash on the null [FILE *]. The text
    [printf] is given at line 22 has no newline and stays in the buffer
    of [stdout], which is written out when [main] returns; a process
    killed before that writes nothing. *)
Inductive outcome :=
| Exit (status : Z) (out : list byte) (fs : gmap string (list byte))
| Crash (fs : gmap string (list byte)).

(** The four bytes [fwrite(&size, 4, 1, f)] takes from a [uint32_t]. *)
Definition object_bytes (h : host) (v : Z) : list byte :=
  if little_endian h then encode_le32 v else encode_be32 v.

Definition usage (argv0 : list byte) : list byte :=
  text "Usage: " ++ argv0 ++ line " file size.bin"
  ++ text "Usage: " ++ argv0 ++ line " file ".

Definition main (h : host) (argv : list string) : outcome :=
  let argc := Z.of_nat (length argv) in
  if argc <? 2 then
    Exit 1 (usage (text (default EmptyString (argv !! 0%nat)))) (files h)
  else
    match argv !! 1%nat with
    | None => Crash (files h)
    | Some path =>
        match files h !! path with
        | None => Exit 1 (line "Can't stat") (files h)
        | Some content =>
            let st_size := Z.of_nat (length content) in
            let padded :=
              wrap_long (Z.land (wrap_long (st_size + 4095)) (Z.lnot 4095)
                         + 1024 * 1024) in
            let out := ltoa padded in
            if argc =? 3 then
              let size := U32.wrap st_size in
              let size := bswap_32 size in
              match argv !! 2%nat with
              | Some dst =>
                  if can_create h dst
                  then Exit 0 out (<[dst := object_bytes h size]> (files h))
                  else Crash (files h)
              | None => Crash (files h)
              end
            else Exit 0 out (files h)
        end
    end.

(** A host with one file of 5000 bytes, for the demonstrations. *)
Definition demo : host :=
  Host {[ "vmlinux"%string := replicate 5000 x90 ]} (fun _ => true) true.

End Size2bin.

(** ** The debug window: [isviewer_write] of [src/main.c] *)

(** [ISVIEWER_BUFFER_LEN]. *)
Definition ISVIEWER_BUFFER_LEN : Z := 0x0000FF7F.

(** The stores the function makes to the device:
    [ISVIEWER_BUFFER[index] = word] and [*ISVIEWER_WRITE_LEN = l]. *)
Inductive mmio_write :=
| WriteBuffer (index word : Z)
| WriteLen (l : Z).

(** The word built from [data[0] .. data[3]], for [data] at address [p]
    of the memory [mem]. *)
Definition pack_word (mem : Z -> byte) (p : Z) : Z :=
  Z.lor (Z.lor (Z.lor (Z.shiftl (byte_to_Z (mem p)) 24)
                      (Z.shiftl (byte_to_Z (mem (p + 1))) 16))
               (Z.shiftl (byte_to_Z (mem (p + 2))) 8))
        (Z.shiftl (byte_to_Z (mem (p + 3))) 0).

(** Lines 122-129, [for (int i = 0; i < l; i += 4) { ...; data += 4; }]:
    the stores and the value of [data] after the loop; nothing when the
    fuel does not last. *)
Fixpoint copy_words (fuel : nat) (mem : Z -> byte) (data i l : Z)
  : option (list mmio_write * Z) :=
  if i <? l then
    match fuel with
    | O => None
    | S f =>
        match copy_words f mem (data + 4) (i + 4) l with
        | Some (ws, data') =>
            Some (WriteBuffer (Z.quot i 4) (pack_word mem data) :: ws, data')
        | None => None
        end
    end
  else Some ([], data).

(** Lines 114-134, [while (len > 0) { ... }]. *)
Fixpoint isviewer_write_loop (fuel : nat) (mem : Z -> byte) (data len : Z)
  : option (list mmio_write) :=
  if 0 <? len then
    match fuel with
    | O => None
    | S f =>
        let l := if len <? ISVIEWER_BUFFER_LEN then len else ISVIEWER_BUFFER_LEN in
        match copy_words (Z.to_nat ((l + 3) / 4)) mem data 0 l with
        | Some (ws, data') =>
            match isviewer_write_loop f mem data' (len - l) with
            | Some rest => Some (ws ++ WriteLen l :: rest)
            | None => None
            end
        | None => None
        end
    end
  else Some [].

(** [isviewer_write(data, len)]; the fuel is the number of turns the
    outer loop can take. *)
Definition isviewer_write (mem : Z -> byte) (data len : Z)
  : option (list mmio_write) :=
  isviewer_write_loop (Z.to_nat (len / ISVIEWER_BUFFER_LEN + 1)) mem data len.

(** The lengths a list of stores hands to the device, in order. *)
Definition flush_lengths (ws : list mmio_write) : list Z :=
  omap (fun w => match w with WriteLen l => Some l | WriteBuffer _ _ => None end) ws.

(** The words of one turn: [count] words from [data] on. *)
Definition chunk_words (mem : Z -> byte) (data : Z) (count : Z) : list mmio_write :=
  (fun j => WriteBuffer j (decode_be [mem (data + 4 * j); mem (data + 4 * j + 1);
                                      mem (data + 4 * j + 2); mem (data + 4 * j + 3)]))
    <$> seqZ 0 count.

(** ** A small cartridge to run the loader on *)

Module Demo.

Definition bytes_of (l : list Z) : list byte := Z_to_byte <$> l.

Definition words_be (l : list Z) : list byte := l ≫= encode_be32.

(** A 52-byte ELF header: entry [0x80001000], program headers at 52. *)
Definition ehdr (ident1 : byte) : list byte :=
  [x7f; ident1; "L"; "F"; x01; x02; x01]%byte ++ replicate 9 x00
  ++ bytes_of [0; 2; 0; 8] ++ words_be [1; 0x80001000; 52; 0; 0]
  ++ bytes_of [0; 52; 0; 32; 0; 2; 0; 0; 0; 0; 0; 0].

(** Two program headers; the second is the loadable one: 5 bytes of
    file data at image offset [0x1000], 16 bytes of memory at
    [0x80001000]. *)
Definition phdrs : list byte :=
  words_be [0x70000000; 0; 0; 0; 0; 0; 0; 0]
  ++ words_be [1; 0x1000; 0x80001000; 0x80001000; 5; 16; 7; 0x1000].

Definition image_head (ident1 : byte) : list byte := ehdr ident1 ++ phdrs.

Definition lookup_bytes (l : list byte) (i : Z) : byte :=
  if (0 <=? i) && (i <? Z.of_nat (length l))
  then default x00 (l !! Z.to_nat i) else x00.

(** The size words sit in the eight bytes before the image, the header
    at its start; every other byte of the cartridge is [0xAA]. *)
Definition cart_of (ksize dsize : Z) (ident1 : byte) : Z -> byte :=
  fun a =>
    let o := a - (CART_IMAGE - 8) in
    if (0 <=? o) && (o <? 8)
    then lookup_bytes (encode_be32 dsize ++ encode_be32 ksize) o
    else if (8 <=? o) && (o <? 8 + Z.of_nat (length (image_head ident1)))
    then lookup_bytes (image_head ident1) (o - 8)
    else xaa.

(** Where the loader lies in the demonstrations: its code and
    constants from [0x80300000], [hdrbuf] at [0x80308000], the rest of
    its data and its stack behind that, up to [0x80400000]; the same
    megabyte is seen again from [0xA0300000]. *)
Definition hdrbuf_addr : Z := 0x80308000.

Definition own : list (Z * Z) :=
  [(0x80300000, 0x8000); (0x80308100, 0xF7F00); (0xA0300000, 0x100000)].

Definition hw_of (ksize dsize : Z) (ident1 : byte) : platform :=
  Platform (cart_of ksize dsize ident1) 6102 false (fun _ => x55)
    hdrbuf_addr own.

(** A kernel of 5000 bytes and a disk of 65536. *)
Definition hw : platform := hw_of 5000 65536 "E".

(** The same cartridge with the magic spoiled. *)
Definition hw_bad_magic : platform := hw_of 5000 65536 "X".

(** No kernel configured. *)
Definition hw_empty : platform := hw_of 0 0 "E".

End Demo.

(** ** Notions the further properties are stated with *)

(** A transfer, and a cache operation on a destination. *)
Definition is_dma (e : event) : bool :=
  match e with EvDmaRead _ _ _ => true | _ => false end.

Definition cache_op_on (t : target) (e : event) : Prop :=
  exists len : Z,
    e = EvCacheWritebackInvalidate t len \/ e = EvCacheInvalidate t len.

(** Traces in which every transfer has a cache operation on its
    destination right before or right after it. *)
Inductive cache_paired : list event -> Prop :=
| cache_paired_nil : cache_paired []
| cache_paired_other (e : event) (t : list event) :
    is_dma e = false -> cache_paired t -> cache_paired (e :: t)
| cache_paired_before (c : event) (tg : target) (src len : Z) (t : list event) :
    cache_op_on tg c -> cache_paired t ->
    cache_paired (c :: EvDmaRead tg src len :: t)
| cache_paired_after (c : event) (tg : target) (src len : Z) (t : list event) :
    cache_op_on tg c -> cache_paired t ->
    cache_paired (EvDmaRead tg src len :: c :: t).

(** The line that reports the debug window. *)
Definition is_detected (e : event) : bool :=
  match e with EvLog LogDetected => true | _ => false end.

(** The same console with or without a debug window. *)
Definition with_isviewer (b : bool) (hw : platform) : platform :=
  Platform (cart hw) (bootcic hw) b (boot_ram hw) (hdrbuf_at hw) (reserved hw).

(** The trace of a loader that has handed over: the interrupts are
    turned off, then comes the call, and there is no call before it. *)
Definition handed_over (s : state) : Prop :=
  exists pre : list event,
    trace s = pre ++ [EvDisableInterrupts; EvSetVIInterrupt 0 0;
                      EvCall (funcptr s) 4 args env Null]
    /\ forallb (fun e => negb (is_call e)) pre = true.




(** ** More cartridges *)

Module Cases.

(** A cartridge with a disk of 65536 bytes, a kernel of 5000 and an
    image that starts with the given bytes; every other byte is
    [0xAA]. *)
Definition cart_with (image : list byte) : Z -> byte :=
  fun a =>
    let o := a - (CART_IMAGE - 8) in
    if (0 <=? o) && (o <? 8)
    then Demo.lookup_bytes (encode_be32 65536 ++ encode_be32 5000) o
    else if (8 <=? o) && (o <? 8 + Z.of_nat (length image))
    then Demo.lookup_bytes image (o - 8)
    else xaa.

(** A segment that is loaded over its own program header. The header
    is entry 0 of the table, at [hdrbuf + 52], so that its [p_filesz]
    is at [hdrbuf + 68]: 8 bytes of file data go there, 16 bytes of
    memory are asked for, and the 8 bytes are the words 16 and 16. *)
Definition self_paddr : Z := Demo.hdrbuf_addr + 68.

Definition image_self : list byte :=
  Demo.ehdr "E"
  ++ Demo.words_be [1; 0x1000; self_paddr; self_paddr; 8; 16; 7; 0x1000]
  ++ replicate (0x1000 - 84) x00
  ++ Demo.words_be [16; 16].

Definition hw_self : platform :=
  Platform (cart_with image_self) 6102 false (fun _ => x55)
    Demo.hdrbuf_addr Demo.own.

(** A table of eight entries whose only loadable one is the last, at
    offset 276 of the image: behind the 256 bytes the loader reads. In
    memory [hdrbuf] is the last of the loader's objects, and what lies
    behind it is [0x55] throughout. *)
Definition image_far : list byte :=
  Demo.ehdr "E"
  ++ Demo.words_be (concat (replicate 7 [0x70000000; 0; 0; 0; 0; 0; 0; 0]))
  ++ Demo.words_be [1; 0x1000; 0x80001000; 0x80001000; 5; 16; 7; 0x1000].

Definition hw_far : platform :=
  Platform (cart_with image_far) 6102 false (fun _ => x55)
    Demo.hdrbuf_addr [(0x80300000, 0x8000)].

(** The same cartridge and the same layout, with a word 1 in memory
    behind [hdrbuf]: at [hdrbuf + 340], where entry 9 of a table at
    offset 52 would have its type. *)
Definition ram_behind : Z -> byte :=
  fun a =>
    let o := a - (Demo.hdrbuf_addr + 340) in
    if (0 <=? o) && (o <? 3) then x00
    else if o =? 3 then x01
    else x55.

Definition hw_behind : platform :=
  Platform (cart_with image_far) 6102 false ram_behind
    Demo.hdrbuf_addr [(0x80300000, 0x8000)].

(** Kernel sizes at the edges of the rounding. *)
Definition hw_aligned : platform := Demo.hw_of 8192 65536 "E".
Definition hw_huge : platform := Demo.hw_of 0xFFFFFFFF 65536 "E".

(** The cartridge of [Demo.hw] with its size word replaced by a record,
    such as the size tool writes. *)
Definition hw_with_record (record : list byte) : platform :=
  Platform
    (fun a =>
       let o := a - (CART_IMAGE - 4) in
       if (0 <=? o) && (o <? 4) then Demo.lookup_bytes record o
       else cart Demo.hw a)
    6102 false (fun _ => x55) Demo.hdrbuf_addr Demo.own.

End Cases.

(** * Properties *)

(** Projections of updated states, and nothing else, are computed. *)
Ltac proj_simpl :=
  cbn [pc ram hdrbuf kernelsize disksize diskoff phdr funcptr trace
       goto emit set_ram set_hdrbuf set_kernelsize set_disksize set_diskoff
       set_phdr set_funcptr install] in *.

Ltac unfold_blocks :=
  unfold do_init, do_read_sizes, do_check_kernel, do_read_header, do_validate,
    do_locate, do_scan, do_load, do_entry, do_metadata, do_transfer, undefined,
    ident_differs, e_ident.

Ltac step_cases s :=
  unfold step; destruct (pc s) eqn:Hpc; unfold_blocks;
  repeat case_match; proj_simpl.

(** ** Bytes and 32-bit arithmetic *)

Lemma byte_to_Z_range (b : byte) : 0 <= byte_to_Z b < 256.
Proof.
  unfold byte_to_Z. pose proof (Byte.to_N_bounded b). lia.
Qed.

Lemma byte_to_Z_to_byte (z : Z) : byte_to_Z (Z_to_byte z) = z mod 256.
Proof.
  unfold Z_to_byte, byte_to_Z.
  assert (Hr : 0 <= z mod 256 < 256) by (apply Z.mod_pos_bound; lia).
  destruct (Byte.of_N (Z.to_N (z mod 256))) as [b|] eqn:E.
  - apply Byte.to_of_N in E. simpl. rewrite E. lia.
  - apply Byte.of_N_None_iff in E. lia.
Qed.

Lemma Z_to_byte_to_Z (b : byte) : Z_to_byte (byte_to_Z b) = b.
Proof.
  unfold Z_to_byte. pose proof (byte_to_Z_range b) as Hr.
  rewrite Z.mod_small by lia. unfold byte_to_Z.
  rewrite N2Z.id, Byte.of_to_N. reflexivity.
Qed.

Lemma byte_to_Z_inj (a b : byte) : byte_to_Z a = byte_to_Z b -> a = b.
Proof.
  intros H. rewrite <- (Z_to_byte_to_Z a), <- (Z_to_byte_to_Z b). now rewrite H.
Qed.

Lemma Z_to_byte_mod (z : Z) : Z_to_byte (z mod 256) = Z_to_byte z.
Proof.
  unfold Z_to_byte. rewrite Z.mod_mod by lia. reflexivity.
Qed.

Lemma decode_be_app (l : list byte) (b : byte) :
  decode_be (l ++ [b]) = decode_be l * 256 + byte_to_Z b.
Proof.
  unfold decode_be. rewrite fold_left_app. reflexivity.
Qed.

Lemma decode_be_bound (l : list byte) :
  0 <= decode_be l < 256 ^ Z.of_nat (length l).
Proof.
  induction l as [|b l IH] using rev_ind.
  - simpl. unfold decode_be. simpl. lia.
  - rewrite decode_be_app, length_app. simpl.
    replace (Z.of_nat (length l + 1)) with (Z.succ (Z.of_nat (length l))) by lia.
    rewrite Z.pow_succ_r by lia.
    pose proof (byte_to_Z_range b). nia.
Qed.

Lemma decode_be_4 (a b c d : byte) :
  decode_be [a; b; c; d]
  = byte_to_Z a * 2^24 + byte_to_Z b * 2^16 + byte_to_Z c * 2^8 + byte_to_Z d.
Proof. unfold decode_be. simpl. lia. Qed.

Lemma decode_encode_be32 (x : Z) : decode_be (encode_be32 x) = x mod 2^32.
Proof.
  unfold encode_be32. rewrite decode_be_4, !byte_to_Z_to_byte.
  change (2^24) with (256 * (256 * 256)). change (2^16) with (256 * 256).
  change (2^8) with 256. change (2^32) with (256 * (256 * (256 * 256))).
  rewrite <- !Z.div_div by lia.
  rewrite !(Z.rem_mul_r _ 256) by lia.
  rewrite !Z.div_div by lia. simpl Z.mul.
  rewrite <- !Z.div_div by lia. lia.
Qed.

Lemma wrap_range (x : Z) : U32.in_range (U32.wrap x).
Proof. unfold U32.in_range, U32.wrap, U32.modulus. apply Z.mod_pos_bound. lia. Qed.

Lemma wrap_small (x : Z) : U32.in_range x -> U32.wrap x = x.
Proof. unfold U32.in_range, U32.wrap. intros H. apply Z.mod_small. exact H. Qed.

Lemma wrap_add_l (x y : Z) : U32.wrap (U32.wrap x + y) = U32.wrap (x + y).
Proof. unfold U32.wrap. apply Zplus_mod_idemp_l. Qed.

Lemma wrap_add_r (x y : Z) : U32.wrap (x + U32.wrap y) = U32.wrap (x + y).
Proof. unfold U32.wrap. apply Zplus_mod_idemp_r. Qed.

Lemma wrap_sub_l (x y : Z) : U32.wrap (U32.wrap x - y) = U32.wrap (x - y).
Proof. unfold U32.wrap. apply Zminus_mod_idemp_l. Qed.

Lemma wrap_sub_r (x y : Z) : U32.wrap (x - U32.wrap y) = U32.wrap (x - y).
Proof. unfold U32.wrap. apply Zminus_mod_idemp_r. Qed.

(** Clearing the low [k] bits of a 32-bit value with the mask [~(2^k - 1)]. *)
Lemma land_lnot_ones (x k : Z) :
  0 <= k <= 32 -> U32.in_range x ->
  U32.land x (U32.lnot (2^k - 1)) = x - x mod 2^k.
Proof.
  intros Hk [Hx0 Hx1]. unfold U32.land, U32.lnot, U32.wrap, U32.modulus in *.
  replace (2^k - 1) with (Z.ones k) by (rewrite Z.ones_equiv; lia).
  transitivity (Z.ldiff x (Z.ones k)).
  - apply Z.bits_inj'. intros n Hn.
    rewrite Z.land_spec, Z.ldiff_spec.
    destruct (Z.testbit x n) eqn:Ex; [|reflexivity]. simpl.
    assert (n < 32).
    { destruct (Z.lt_ge_cases n 32) as [?|Hge]; [assumption|].
      rewrite (Z.bits_above_log2 x n) in Ex; [discriminate|lia|].
      destruct (Z.eq_dec x 0) as [->|]; [simpl; lia|].
      apply Z.log2_lt_pow2; [lia|].
      apply Z.lt_le_trans with (2^32); [lia|]. apply Z.pow_le_mono_r; lia. }
    rewrite Z.mod_pow2_bits_low by lia.
    rewrite Z.lnot_spec by lia. reflexivity.
  - rewrite Z.ldiff_ones_r by lia.
    rewrite Z.shiftl_mul_pow2, Z.shiftr_div_pow2 by lia.
    assert (Hp : 0 < 2^k) by (apply Z.pow_pos_nonneg; lia).
    pose proof (Z.div_mod x (2^k)). lia.
Qed.

(** The idiom [(x + m) & ~m] with [m = 2^k - 1]: the multiple of [2^k]
    at or above [x], taken modulo [2^32]; the least such multiple when
    it can be represented. *)
Lemma round_up_pow2 (x k : Z) :
  0 <= k <= 32 -> U32.in_range x ->
  let r := U32.land (U32.add x (2^k - 1)) (U32.lnot (2^k - 1)) in
  r = U32.wrap (2^k * ((x + (2^k - 1)) / 2^k))
  /\ r mod 2^k = 0
  /\ (x + (2^k - 1) < U32.modulus -> x <= r < x + 2^k).
Proof.
  intros Hk Hx r. subst r.
  assert (Hp : 0 < 2^k) by (apply Z.pow_pos_nonneg; lia).
  assert (Hdiv : U32.modulus = 2^k * 2^(32 - k)).
  { unfold U32.modulus. rewrite <- Z.pow_add_r by lia.
    replace (k + (32 - k)) with 32 by lia. reflexivity. }
  assert (Hq : 0 < 2^(32 - k)) by (apply Z.pow_pos_nonneg; lia).
  rewrite land_lnot_ones; [| exact Hk | apply wrap_range].
  unfold U32.add, U32.wrap. rewrite Hdiv.
  set (y := x + (2^k - 1)). set (q := 2^(32 - k)) in *. set (p := 2^k) in *.
  assert (Hw : y mod (p * q) = y mod p + p * ((y / p) mod q))
    by (apply Z.rem_mul_r; lia).
  assert (Hwp : (y mod (p * q)) mod p = y mod p).
  { rewrite Hw, (Z.mul_comm p), Z.mod_add by lia.
    apply Z.mod_mod. lia. }
  rewrite Hwp, Z.mul_mod_distr_l by lia.
  split; [lia|]. split.
  - replace (y mod (p * q) - y mod p) with (((y / p) mod q) * p) by lia.
    apply Z.mod_mul. lia.
  - intros Hsmall. destruct Hx as [Hx0 Hx1].
    assert (Hy : (y / p) mod q = y / p).
    { apply Z.mod_small. split; [apply Z.div_pos; lia|].
      apply Z.div_lt_upper_bound; lia. }
    rewrite Hw, Hy. pose proof (Z.div_mod y p).
    pose proof (Z.mod_pos_bound y p). lia.
Qed.

(** ** Decimal digits *)

Example utoa_8192 : utoa 8192 = text "8192".
Proof. reflexivity. Qed.

Example atou_65536 : atou (text "65536") = Some 65536.
Proof. reflexivity. Qed.

Lemma digit_val_char (d : Z) : 0 <= d <= 9 -> digit_val (digit_char d) = Some d.
Proof.
  intros Hd. unfold digit_val, digit_char. rewrite byte_to_Z_to_byte.
  rewrite Z.mod_small by lia.
  replace (48 + d - 48) with d by lia.
  destruct (Z.leb_spec 0 d), (Z.leb_spec d 9); simpl; try lia. reflexivity.
Qed.

Lemma digit_char_not_nul (d : Z) : 0 <= d <= 9 -> digit_char d <> x00.
Proof.
  intros Hd E. apply (f_equal byte_to_Z) in E. unfold digit_char in E.
  rewrite byte_to_Z_to_byte, Z.mod_small in E by lia.
  change (byte_to_Z x00) with 0 in E. lia.
Qed.

Lemma utoa_aux_step (f : nat) (n : Z) (acc : list byte) :
  utoa_aux (S f) n acc
  = if n / 10 =? 0 then digit_char (n mod 10) :: acc
    else utoa_aux f (n / 10) (digit_char (n mod 10) :: acc).
Proof. reflexivity. Qed.

(** Reading back what [utoa_aux] produced continues from the value
    printed. *)
Lemma atou_utoa_aux (f : nat) :
  forall (n : Z) (acc : list byte),
    0 <= n < 10 ^ Z.of_nat f ->
    atou_aux 0 (utoa_aux f n acc) = atou_aux n acc.
Proof.
  induction f as [|f IH]; intros n acc Hn.
  - simpl in *. replace n with 0 by lia. reflexivity.
  - rewrite utoa_aux_step.
    assert (Hd : 0 <= n mod 10 <= 9) by (pose proof (Z.mod_pos_bound n 10); lia).
    pose proof (Z.div_mod n 10) as Hdm.
    destruct (Z.eqb_spec (n / 10) 0) as [E|E].
    + simpl. rewrite digit_val_char by exact Hd. f_equal. lia.
    + rewrite IH.
      * simpl. rewrite digit_val_char by exact Hd. f_equal. lia.
      * rewrite Nat2Z.inj_succ, Z.pow_succ_r in Hn by lia.
        split; [apply Z.div_pos; lia|]. apply Z.div_lt_upper_bound; lia.
Qed.

Lemma utoa_aux_nonempty (f : nat) (n : Z) (acc : list byte) :
  utoa_aux (S f) n acc <> [].
Proof.
  revert n acc. induction f as [|f IH]; intros n acc; rewrite utoa_aux_step.
  - destruct (n / 10 =? 0); discriminate.
  - destruct (n / 10 =? 0); [discriminate|]. apply IH.
Qed.

(** Round trip of the decimal conversion, for every value [%u] or [%ld]
    can be given. *)
Lemma atou_utoa (n : Z) : 0 <= n < 10 ^ 20 -> atou (utoa n) = Some n.
Proof.
  intros Hn. unfold atou, utoa.
  destruct (utoa_aux 20 n []) eqn:E.
  - exfalso. exact (utoa_aux_nonempty _ _ _ E).
  - rewrite <- E. rewrite atou_utoa_aux by exact Hn. reflexivity.
Qed.

(** A value below [10^k] prints in at most [k] digits. *)
Lemma utoa_aux_length (f : nat) :
  forall (k : nat) (n : Z) (acc : list byte),
    (1 <= k <= f)%nat -> 0 <= n < 10 ^ Z.of_nat k ->
    (length acc < length (utoa_aux f n acc) <= k + length acc)%nat.
Proof.
  induction f as [|f IH]; intros k n acc Hk Hn; [lia|].
  rewrite utoa_aux_step.
  destruct (Z.eqb_spec (n / 10) 0) as [E|E]; [simpl; lia|].
  assert (Hq : 0 < n / 10).
  { assert (0 <= n / 10) by (apply Z.div_pos; lia). lia. }
  destruct k as [|[|k]]; [lia| |].
  - exfalso. simpl in Hn. assert (n / 10 = 0) by (apply Z.div_small; lia). lia.
  - specialize (IH (S k) (n / 10) (digit_char (n mod 10) :: acc)).
    simpl length in IH.
    assert (Hb : 0 <= n / 10 < 10 ^ Z.of_nat (S k)).
    { split; [lia|]. apply Z.div_lt_upper_bound; [lia|].
      rewrite <- Z.pow_succ_r by lia. rewrite <- Nat2Z.inj_succ. lia. }
    specialize (IH ltac:(lia) Hb). lia.
Qed.

Lemma utoa_length_u32 (n : Z) :
  U32.in_range n -> (1 <= length (utoa n) <= 10)%nat.
Proof.
  intros [H0 H1]. unfold U32.modulus in H1.
  assert (Hn : 0 <= n < 10 ^ Z.of_nat 10)
    by (change (10 ^ Z.of_nat 10) with 10000000000; lia).
  pose proof (utoa_aux_length 20 10 n [] ltac:(lia) Hn) as H.
  change (length (@nil byte)) with 0%nat in H. unfold utoa. lia.
Qed.

Lemma utoa_aux_no_nul (f : nat) :
  forall (n : Z) (acc : list byte),
    no_nul acc -> no_nul (utoa_aux f n acc).
Proof.
  induction f as [|f IH]; intros n acc Hacc; [exact Hacc|].
  rewrite utoa_aux_step.
  assert (Hd : 0 <= n mod 10 <= 9) by (pose proof (Z.mod_pos_bound n 10); lia).
  assert (no_nul (digit_char (n mod 10) :: acc))
    by (constructor; [apply digit_char_not_nul; exact Hd | exact Hacc]).
  destruct (n / 10 =? 0); [assumption|]. apply IH. assumption.
Qed.

Lemma utoa_no_nul (n : Z) : no_nul (utoa n).
Proof. apply utoa_aux_no_nul. constructor. Qed.

Lemma no_nul_forallb (l : list byte) :
  forallb (fun b => negb (Byte.eqb b x00)) l = true -> no_nul l.
Proof.
  induction l as [|b l IH]; simpl; intros H; [constructor|].
  apply andb_true_iff in H as [Hb Hl]. constructor; [|apply IH; exact Hl].
  intros ->. discriminate.
Qed.

(** ** C strings inside a buffer *)

Lemma cstring_app_nul (r tl : list byte) :
  no_nul r -> cstring (r ++ x00 :: tl) = r.
Proof.
  induction 1 as [|b r Hb Hr IH]; simpl; [reflexivity|].
  destruct (Byte.eqb b x00) eqn:E.
  - apply Byte.byte_dec_bl in E. contradiction.
  - f_equal. exact IH.
Qed.

(** A run of bytes found at [off] and followed by a NUL is the C string
    at [off]. *)
Lemma cstring_at_lookup (buf r : list byte) (off : nat) :
  no_nul r ->
  (forall j : nat, (j < length r)%nat -> buf !! (off + j)%nat = r !! j) ->
  buf !! (off + length r)%nat = Some x00 ->
  cstring_at buf off = r.
Proof.
  intros Hr Hrun Hnul. unfold cstring_at.
  assert (Hlen : (off + length r < length buf)%nat)
    by (apply lookup_lt_is_Some; eauto).
  assert (E : drop off buf = r ++ x00 :: drop (S (off + length r)) buf).
  { apply list_eq. intros i. rewrite lookup_drop.
    destruct (Nat.lt_ge_cases i (length r)) as [Hi|Hi].
    - rewrite lookup_app_l by exact Hi. apply Hrun. exact Hi.
    - rewrite lookup_app_r by exact Hi.
      destruct (i - length r)%nat as [|m] eqn:Em.
      + replace i with (length r) by lia. exact Hnul.
      + simpl. rewrite lookup_drop. f_equal. lia. }
  rewrite E. apply cstring_app_nul. exact Hr.
Qed.

(** ** Buffer reads and writes *)

Lemma write_bytes_length (buf bs buf' : list byte) (off : Z) :
  write_bytes buf off bs = Some buf' -> length buf' = length buf.
Proof.
  unfold write_bytes. case_match eqn:E; [|discriminate]. intros [= <-].
  apply andb_true_iff in E as [E0 E1].
  apply Z.leb_le in E0, E1.
  rewrite !length_app, length_take, length_drop. lia.
Qed.

Lemma write_bytes_lookup (buf bs buf' : list byte) (off : Z) (i : nat) :
  write_bytes buf off bs = Some buf' ->
  buf' !! i =
    if decide (Z.to_nat off <= i < Z.to_nat off + length bs)%nat
    then bs !! (i - Z.to_nat off)%nat
    else buf !! i.
Proof.
  unfold write_bytes. case_match eqn:E; [|discriminate]. intros [= <-].
  apply andb_true_iff in E as [E0 E1].
  apply Z.leb_le in E0, E1.
  assert (Hlt : length (take (Z.to_nat off) buf) = Z.to_nat off)
    by (rewrite length_take; lia).
  case_decide as Hi.
  - rewrite lookup_app_r by lia. rewrite Hlt.
    rewrite lookup_app_l by lia. reflexivity.
  - destruct (Nat.lt_ge_cases i (Z.to_nat off)) as [Hlo|Hhi].
    + rewrite lookup_app_l by lia. apply lookup_take_lt. exact Hlo.
    + rewrite lookup_app_r by lia. rewrite Hlt.
      rewrite lookup_app_r by lia. rewrite lookup_drop. f_equal. lia.
Qed.

Lemma write_bytes_fits (buf bs : list byte) (off : Z) :
  0 <= off -> off + Z.of_nat (length bs) <= Z.of_nat (length buf) ->
  is_Some (write_bytes buf off bs).
Proof.
  intros H0 H1. unfold write_bytes.
  destruct (Z.leb_spec 0 off), (Z.leb_spec (off + Z.of_nat (length bs))
                                   (Z.of_nat (length buf))); try lia.
  simpl. eauto.
Qed.

(** A 32-bit read succeeds exactly on four bytes inside the buffer and
    decodes them. *)
Lemma read_u32_lookup (buf : list byte) (off v : Z) :
  read_u32 buf off = Some v <->
  0 <= off /\
  exists a b c d : byte,
    buf !! Z.to_nat off = Some a /\ buf !! S (Z.to_nat off) = Some b /\
    buf !! S (S (Z.to_nat off)) = Some c /\
    buf !! S (S (S (Z.to_nat off))) = Some d /\
    v = decode_be [a; b; c; d].
Proof.
  unfold read_u32, sub_bytes. split.
  - case_match eqn:E; [|discriminate]. simpl. intros [= <-].
    apply andb_true_iff in E as [E0 E1]. apply Z.leb_le in E0, E1.
    split; [exact E0|].
    assert (Hl : (Z.to_nat off + 4 <= length buf)%nat) by lia.
    destruct (lookup_lt_is_Some_2 buf (Z.to_nat off) ltac:(lia)) as [a Ha].
    destruct (lookup_lt_is_Some_2 buf (S (Z.to_nat off)) ltac:(lia)) as [b Hb].
    destruct (lookup_lt_is_Some_2 buf (S (S (Z.to_nat off))) ltac:(lia)) as [c Hc].
    destruct (lookup_lt_is_Some_2 buf (S (S (S (Z.to_nat off)))) ltac:(lia)) as [d Hd].
    exists a, b, c, d. repeat (split; [assumption|]).
    f_equal.
    rewrite (drop_S _ _ _ Ha), (drop_S _ _ _ Hb), (drop_S _ _ _ Hc), (drop_S _ _ _ Hd).
    reflexivity.
  - intros (H0 & a & b & c & d & Ha & Hb & Hc & Hd & ->).
    assert (Hl : (S (S (S (Z.to_nat off))) < length buf)%nat)
      by (apply lookup_lt_is_Some; eauto).
    destruct (Z.leb_spec 0 off); [|lia].
    destruct (Z.leb_spec (off + Z.of_nat 4) (Z.of_nat (length buf))); [|lia].
    simpl. f_equal. f_equal.
    rewrite (drop_S _ _ _ Ha), (drop_S _ _ _ Hb), (drop_S _ _ _ Hc), (drop_S _ _ _ Hd).
    reflexivity.
Qed.

Lemma read_u32_range (buf : list byte) (off v : Z) :
  read_u32 buf off = Some v -> U32.in_range v.
Proof.
  intros H. apply read_u32_lookup in H as (_ & a & b & c & d & _ & _ & _ & _ & ->).
  pose proof (decode_be_bound [a; b; c; d]) as Hb. simpl length in Hb.
  unfold U32.in_range, U32.modulus. change (256 ^ Z.of_nat 4) with (2^32) in Hb.
  exact Hb.
Qed.

(** Two buffers that agree on the four bytes read give the same value. *)
Lemma read_u32_agree (buf buf' : list byte) (off v : Z) :
  read_u32 buf off = Some v ->
  (forall i : nat, (i < Z.to_nat off + 4)%nat -> buf' !! i = buf !! i) ->
  read_u32 buf' off = Some v.
Proof.
  intros H Hag. apply read_u32_lookup in H as (H0 & a & b & c & d & Ha & Hb & Hc & Hd & ->).
  apply read_u32_lookup. split; [exact H0|].
  exists a, b, c, d. rewrite !Hag by lia. auto.
Qed.

(** ** The step machine *)

Section Machine.

Variable hw : platform.

Lemma run_add (n m : nat) (s : state) :
  run hw (n + m) s = run hw m (run hw n s).
Proof. revert s. induction n as [|n IH]; intros s; simpl; [reflexivity|apply IH]. Qed.

Lemma run_S (n : nat) (s : state) : run hw (S n) s = step hw (run hw n s).
Proof.
  replace (S n) with (n + 1)%nat by lia. rewrite run_add. reflexivity.
Qed.

Lemma run_fixed (n : nat) (s : state) : step hw s = s -> run hw n s = s.
Proof. intros H. induction n as [|n IH]; simpl; [reflexivity|]. now rewrite H. Qed.

Lemma dma_bytes_length (a : Z) (n : nat) : length (dma_bytes hw a n) = n.
Proof. unfold dma_bytes. rewrite length_fmap. apply length_seq. Qed.

Lemma dma_u32_range (a : Z) : U32.in_range (dma_u32 hw a).
Proof.
  unfold dma_u32. pose proof (decode_be_bound (dma_bytes hw a 4)) as H.
  rewrite dma_bytes_length in H. exact H.
Qed.







(** Control only moves forward through the blocks. *)
Lemma step_rank (s : state) :
  (phase_rank (pc s) <= phase_rank (pc (step hw s)))%nat.
Proof. step_cases s; try rewrite Hpc; cbn [phase_rank]; lia. Qed.

Lemma run_rank (n : nat) (s : state) :
  (phase_rank (pc s) <= phase_rank (pc (run hw n s)))%nat.
Proof.
  revert s. induction n as [|n IH]; intros s; simpl; [lia|].
  pose proof (step_rank s). pose proof (IH (step hw s)). lia.
Qed.

(** Once the sizes are read they stay. *)
Lemma step_sizes (s : state) :
  (2 <= phase_rank (pc s))%nat ->
  kernelsize (step hw s) = kernelsize s /\ disksize (step hw s) = disksize s
  /\ diskoff (step hw s) = diskoff s.
Proof. step_cases s; cbn [phase_rank]; intros; try lia; auto. Qed.

Lemma run_sizes (n : nat) (s : state) :
  (2 <= phase_rank (pc s))%nat ->
  kernelsize (run hw n s) = kernelsize s /\ disksize (run hw n s) = disksize s
  /\ diskoff (run hw n s) = diskoff s.
Proof.
  revert s. induction n as [|n IH]; intros s H; simpl; [auto|].
  pose proof (step_rank s).
  destruct (step_sizes s H) as (F1 & F2 & F3).
  destruct (IH (step hw s) ltac:(lia)) as (E1 & E2 & E3).
  rewrite E1, E2, E3, F1, F2, F3. auto.
Qed.

(** Memory is written by the load block alone. *)
Lemma step_ram (s : state) : pc s <> PLoad -> ram (step hw s) = ram s.
Proof. step_cases s; intros; try congruence; reflexivity. Qed.

Lemma run_ram (n : nat) (s : state) :
  (9 <= phase_rank (pc s))%nat -> ram (run hw n s) = ram s.
Proof.
  revert s. induction n as [|n IH]; intros s H; cbn [run]; [reflexivity|].
  pose proof (step_rank s).
  rewrite IH by lia. apply step_ram.
  intros E. rewrite E in H. cbn [phase_rank] in H. lia.
Qed.

(** The trace is only ever appended to, and nothing reads it: two
    states that differ in their traces alone step alike. *)
Lemma step_machine (s1 s2 : state) :
  machine s1 = machine s2 -> machine (step hw s1) = machine (step hw s2).
Proof.
  destruct s1 as [p1 r1 h1 k1 d1 o1 q1 f1 t1], s2 as [p2 r2 h2 k2 d2 o2 q2 f2 t2].
  unfold machine. simpl. intros [= -> -> -> -> -> -> -> ->].
  unfold step; proj_simpl. destruct p2; unfold_blocks;
    unfold fetch32, phdr_field, install, view; proj_simpl;
    repeat case_match; proj_simpl; reflexivity.
Qed.

Lemma run_machine (n : nat) (s1 s2 : state) :
  machine s1 = machine s2 -> machine (run hw n s1) = machine (run hw n s2).
Proof.
  revert s1 s2. induction n as [|n IH]; intros s1 s2 H; simpl; [exact H|].
  apply IH, step_machine, H.
Qed.

Lemma step_trace_extends (s : state) :
  exists evs, trace (step hw s) = trace s ++ evs.
Proof.
  step_cases s;
    try (eexists; rewrite <- ?app_assoc; reflexivity);
    try (exists []; rewrite app_nil_r; reflexivity).
Qed.

(** The kernel is called by the last block and by no other. *)
Lemma step_no_call (s : state) :
  pc (step hw s) <> PKernel ->
  forallb (fun e => negb (is_call e)) (trace s) = true ->
  forallb (fun e => negb (is_call e)) (trace (step hw s)) = true.
Proof.
  step_cases s; intros Hk Hf; try (exfalso; apply Hk; reflexivity);
    rewrite ?forallb_app, ?Hf; try reflexivity; try assumption.
Qed.

Lemma run_no_call (n : nat) (s : state) :
  pc (run hw n s) <> PKernel ->
  forallb (fun e => negb (is_call e)) (trace s) = true ->
  forallb (fun e => negb (is_call e)) (trace (run hw n s)) = true.
Proof.
  induction n as [|n IH]; [intros; assumption|].
  rewrite run_S. intros Hk Hf. apply step_no_call; [exact Hk|].
  apply IH; [|exact Hf]. intros E.
  apply Hk. unfold step. rewrite E. exact E.
Qed.

End Machine.

(** ** The size words and the halt *)

Section Sizes.

Variable hw : platform.

(** The first three blocks always run: after two steps the sizes are
    read and [diskoff] is computed from [kernelsize]. *)
Lemma main_2 :
  pc (main hw 2) = PCheckKernel
  /\ kernelsize (main hw 2) = dma_u32 hw (U32.sub CART_IMAGE 4)
  /\ disksize (main hw 2) = dma_u32 hw (U32.sub CART_IMAGE 8)
  /\ diskoff (main hw 2)
     = U32.land (U32.add (dma_u32 hw (U32.sub CART_IMAGE 4)) 4095) (U32.lnot 4095).
Proof. repeat split. Qed.

Lemma main_add (n m : nat) : main hw (n + m) = run hw m (main hw n).
Proof. unfold main. apply run_add. Qed.

Lemma main_sizes (n : nat) :
  (2 <= n)%nat ->
  kernelsize (main hw n) = dma_u32 hw (U32.sub CART_IMAGE 4)
  /\ disksize (main hw n) = dma_u32 hw (U32.sub CART_IMAGE 8)
  /\ diskoff (main hw n)
     = U32.land (U32.add (kernelsize (main hw n)) 4095) (U32.lnot 4095).
Proof.
  intros Hn. replace n with (2 + (n - 2))%nat by lia. rewrite main_add.
  destruct (run_sizes hw (n - 2) (main hw 2)) as (-> & -> & ->).
  - destruct main_2 as (-> & _). cbn [phase_rank]. lia.
  - destruct main_2 as (_ & -> & -> & ->). auto.
Qed.

Lemma main_pc_early (n : nat) :
  (n < 3)%nat ->
  pc (main hw n) = PInit \/ pc (main hw n) = PReadSizes
  \/ pc (main hw n) = PCheckKernel.
Proof.
  intros Hn. destruct n as [|[|[|n]]]; [auto | auto | auto | lia].
Qed.

Lemma main_no_call (n : nat) :
  pc (main hw n) <> PKernel ->
  forallb (fun e => negb (is_call e)) (trace (main hw n)) = true.
Proof. intros H. exact (run_no_call hw n (boot hw) H eq_refl). Qed.

Lemma main_3 :
  main hw 3 = do_check_kernel (main hw 2).
Proof. reflexivity. Qed.

End Sizes.

(** C2. Whenever a kernel is configured ([kernelsize > 0]), [diskoff] is
    [(kernelsize + 4095) & ~4095] computed on 32-bit unsigned values: the
    multiple of 4096 at or above [kernelsize], modulo [2^32], and the
    least such multiple whenever [kernelsize + 4095] does not overflow. *)
Theorem C2_diskoff_alignment (hw : platform) (n : nat) :
  (2 <= n)%nat ->
  0 < kernelsize (main hw n) ->
  let k := kernelsize (main hw n) in
  let d := diskoff (main hw n) in
  d = Z.land ((k + 4095) mod 2^32) (Z.lnot 4095 mod 2^32)
  /\ d = (4096 * ((k + 4095) / 4096)) mod 2^32
  /\ d mod 4096 = 0
  /\ (k + 4095 < 2^32 -> k <= d < k + 4096).
Proof.
  intros Hn Hk k d.
  destruct (main_sizes hw n Hn) as (Ek & _ & Ed).
  assert (Hr : U32.in_range k) by (subst k; rewrite Ek; apply dma_u32_range).
  destruct (round_up_pow2 k 12 ltac:(lia) Hr) as (R1 & R2 & R3).
  change (2^12 - 1) with 4095 in *. change (2^12) with 4096 in *.
  fold k in Ed. fold d in Ed. rewrite <- Ed in R1, R2, R3.
  repeat split; try assumption; try (apply R3; assumption).
Qed.

(** The case the specification works out: 5000 bytes of kernel put the
    disk at 8192. *)
Lemma C2_diskoff_alignment_witness :
  (2 <= 12)%nat /\ 0 < kernelsize (main Demo.hw 12)
  /\ kernelsize (main Demo.hw 12) = 5000
  /\ diskoff (main Demo.hw 12) = 8192
  /\ diskoff (main Demo.hw 12)
     = (4096 * ((kernelsize (main Demo.hw 12) + 4095) / 4096)) mod 2^32.
Proof.
  split; [lia|]. split; [reflexivity|]. split; [reflexivity|].
  split; [reflexivity|].
  apply (C2_diskoff_alignment Demo.hw 12); [lia | reflexivity].
Defined.

(** C3. With a [kernelsize] word of 0 on the cartridge the loader prints
    its diagnostic and stays in the empty loop for ever; it never
    reaches the transfer block, never hands over to the kernel and never
    issues the call. Conversely the loop is entered only when the word
    is 0. *)
Theorem C3_halt_iff_no_kernel (hw : platform) :
  (dma_u32 hw (U32.sub CART_IMAGE 4) = 0 ->
   forall n : nat,
     ((3 <= n)%nat ->
      pc (main hw n) = PHalt
      /\ trace (main hw n)
         = trace (main hw 2) ++ [EvPrintf (line "No kernel configured")])
     /\ pc (main hw n) <> PTransfer
     /\ pc (main hw n) <> PKernel
     /\ forallb (fun e => negb (is_call e)) (trace (main hw n)) = true)
  /\ (forall n : nat,
        pc (main hw n) = PHalt -> dma_u32 hw (U32.sub CART_IMAGE 4) = 0).
Proof.
  split.
  - intros Hz n.
    assert (H3 : pc (main hw 3) = PHalt
                 /\ trace (main hw 3)
                    = trace (main hw 2) ++ [EvPrintf (line "No kernel configured")]).
    { rewrite main_3. unfold do_check_kernel.
      destruct (main_2 hw) as (_ & -> & _). rewrite Hz.
      change (0 =? 0) with true. proj_simpl. auto. }
    assert (Hfix : forall m, main hw (3 + m) = main hw 3).
    { intros m. rewrite main_add.
      refine (run_fixed hw m (main hw 3) _).
      unfold step. destruct H3 as (-> & _). reflexivity. }
    assert (Hpc : pc (main hw n) = PInit \/ pc (main hw n) = PReadSizes
                  \/ pc (main hw n) = PCheckKernel \/ pc (main hw n) = PHalt).
    { destruct (Nat.lt_ge_cases n 3) as [Hlt|Hge].
      - pose proof (main_pc_early hw n Hlt). tauto.
      - replace n with (3 + (n - 3))%nat by lia. rewrite Hfix. tauto. }
    split; [|split; [|split]].
    + intros Hn. replace n with (3 + (n - 3))%nat by lia. rewrite Hfix. exact H3.
    + intros E. rewrite E in Hpc. intuition discriminate.
    + intros E. rewrite E in Hpc. intuition discriminate.
    + refine (main_no_call hw n _).
      intros E. rewrite E in Hpc. intuition discriminate.
  - intros n Hh.
    destruct (Nat.lt_ge_cases n 3) as [Hlt|Hge].
    { pose proof (main_pc_early hw n Hlt). rewrite Hh in *. intuition discriminate. }
    destruct (Z.eq_dec (dma_u32 hw (U32.sub CART_IMAGE 4)) 0) as [E|E]; [exact E|].
    exfalso.
    assert (H3 : pc (main hw 3) = PReadHeader).
    { rewrite main_3. unfold do_check_kernel.
      destruct (main_2 hw) as (_ & -> & _).
      destruct (Z.eqb_spec (dma_u32 hw (U32.sub CART_IMAGE 4)) 0); [contradiction|].
      reflexivity. }
    pose proof (run_rank hw (n - 3) (main hw 3)) as Hr.
    rewrite <- main_add in Hr.
    replace (3 + (n - 3))%nat with n in Hr by lia.
    rewrite H3, Hh in Hr. cbn [phase_rank] in Hr. lia.
Qed.

(** The empty cartridge halts; a cartridge with a kernel does not. *)
Lemma C3_halt_iff_no_kernel_witness :
  dma_u32 Demo.hw_empty (U32.sub CART_IMAGE 4) = 0
  /\ pc (main Demo.hw_empty 7) = PHalt
  /\ pc (main Demo.hw_empty 7) <> PKernel
  /\ forallb (fun e => negb (is_call e)) (trace (main Demo.hw_empty 7)) = true.
Proof.
  split; [reflexivity|].
  destruct (C3_halt_iff_no_kernel Demo.hw_empty) as [H _].
  destruct (H ltac:(reflexivity) 7%nat) as (H3 & _ & Hk & Hc).
  destruct (H3 ltac:(lia)) as (Hp & _).
  repeat split; assumption.
Defined.

(** ** Memory through pointers *)

Lemma add_sub_cancel (a b : Z) : U32.add b (U32.sub a b) = U32.wrap a.
Proof. unfold U32.add, U32.sub. rewrite wrap_add_r. f_equal. lia. Qed.

Lemma sub_add_cancel (b o : Z) : U32.sub (U32.add b o) b = U32.wrap o.
Proof. unfold U32.add, U32.sub. rewrite wrap_sub_l. f_equal. lia. Qed.

Lemma add_add (a i j : Z) : U32.add (U32.add a i) j = U32.add a (i + j).
Proof. unfold U32.add. rewrite wrap_add_l. f_equal. lia. Qed.

Lemma wrap_wrap (x : Z) : U32.wrap (U32.wrap x) = U32.wrap x.
Proof. unfold U32.wrap, U32.modulus. apply Z.mod_mod. lia. Qed.

Lemma sub_wrap_l (a b : Z) : U32.sub (U32.wrap a) b = U32.sub a b.
Proof. unfold U32.sub. apply wrap_sub_l. Qed.

(** Two addresses that are equal modulo the address space differ by a
    multiple of its size. *)
Lemma wrap_eq_diff (x y : Z) :
  U32.wrap x = U32.wrap y -> exists q : Z, y - x = q * U32.modulus.
Proof.
  unfold U32.wrap, U32.modulus. intros E.
  pose proof (Z.div_mod x (2^32) ltac:(lia)) as Hx.
  pose proof (Z.div_mod y (2^32) ltac:(lia)) as Hy.
  exists (y / 2^32 - x / 2^32). lia.
Qed.

(** Ranges that do not touch have no address in common. *)
Lemma touches_false (b size a len : Z) :
  size <= U32.modulus -> len <= U32.modulus ->
  touches b size a len = false ->
  forall i j : Z,
    0 <= i < len -> 0 <= j < size -> U32.wrap (a + i) <> U32.wrap (b + j).
Proof.
  intros Hsize Hlen Ht i j Hi Hj E. unfold touches in Ht.
  destruct (Z.ltb_spec 0 size); [|lia]. destruct (Z.ltb_spec 0 len); [|lia].
  cbn [andb] in Ht. apply orb_false_iff in Ht as [T1 T2].
  apply Z.ltb_ge in T1, T2.
  apply wrap_eq_diff in E as [q Hq]. unfold U32.sub, U32.wrap in T1, T2.
  unfold U32.modulus in *.
  destruct (Z_le_gt_dec j i) as [Hle|Hgt].
  - assert (Hd : (b - a) mod 2^32 = i - j).
    { replace (b - a) with (i - j + q * 2^32) by lia.
      rewrite Z.mod_add by lia. apply Z.mod_small. lia. }
    lia.
  - assert (Hd : (a - b) mod 2^32 = j - i).
    { replace (a - b) with (j - i + (- q) * 2^32) by lia.
      rewrite Z.mod_add by lia. apply Z.mod_small. lia. }
    lia.
Qed.

(** An address of a range that the other does not touch lies outside
    the other. *)
Lemma touches_outside (b size a len j : Z) :
  size <= U32.modulus -> len <= U32.modulus ->
  touches b size a len = false ->
  0 <= j < size -> len <= U32.sub (U32.add b j) a.
Proof.
  intros Hsize Hlen Ht Hj.
  destruct (Z_le_gt_dec len (U32.sub (U32.add b j) a)) as [H|H]; [exact H|].
  exfalso.
  pose proof (wrap_range (U32.add b j - a)) as [R0 R1].
  fold (U32.sub (U32.add b j) a) in R0, R1.
  apply (touches_false b size a len Hsize Hlen Ht (U32.sub (U32.add b j) a) j);
    [lia | exact Hj |].
  unfold U32.sub. rewrite wrap_add_r. unfold U32.add.
  replace (a + (U32.wrap (b + j) - a)) with (U32.wrap (b + j)) by lia.
  apply wrap_wrap.
Qed.

Section Memory.

Variable hw : platform.

Lemma view_wrap (s : state) (a : Z) : view hw s (U32.wrap a) = view hw s a.
Proof. unfold view. rewrite sub_wrap_l, wrap_wrap. reflexivity. Qed.

(** After a store memory reads as the stored map, in [hdrbuf] too. *)
Lemma view_install (m : Z -> byte) (s : state) (a : Z) :
  view hw (install hw m s) a = m (U32.wrap a).
Proof.
  unfold view. proj_simpl.
  pose proof (wrap_range (a - hdrbuf_at hw)) as [R0 R1].
  fold (U32.sub a (hdrbuf_at hw)) in R0, R1. unfold HDRBUF_SIZE.
  destruct (Z.ltb_spec (U32.sub a (hdrbuf_at hw)) 256) as [Hin|Hout];
    [|reflexivity].
  rewrite list_lookup_fmap, lookup_seq_lt by (change (Z.to_nat 256) with 256%nat; lia).
  cbn [fmap option_fmap option_map default Nat.add].
  rewrite Z2Nat.id by lia. rewrite add_sub_cancel. reflexivity.
Qed.

Lemma view_inside (s : state) (i : nat) (b : byte) :
  hdrbuf s !! i = Some b -> (i < 256)%nat ->
  view hw s (U32.add (hdrbuf_at hw) (Z.of_nat i)) = b.
Proof.
  intros Hb Hi. unfold view. rewrite sub_add_cancel.
  rewrite wrap_small by (unfold U32.in_range, U32.modulus; lia).
  unfold HDRBUF_SIZE. destruct (Z.ltb_spec (Z.of_nat i) 256); [|lia].
  rewrite Nat2Z.id, Hb. reflexivity.
Qed.

Lemma view_outside (s : state) (a : Z) :
  HDRBUF_SIZE <= U32.sub a (hdrbuf_at hw) -> view hw s a = ram s (U32.wrap a).
Proof.
  intros H. unfold view.
  destruct (Z.ltb_spec (U32.sub a (hdrbuf_at hw)) HDRBUF_SIZE); [lia | reflexivity].
Qed.

(** A word inside [hdrbuf], read through a pointer. *)
Lemma load32_hdrbuf (s : state) (off v : Z) :
  read_u32 (hdrbuf s) off = Some v -> off + 4 <= 256 ->
  load32 (view hw s) (U32.add (hdrbuf_at hw) off) = v.
Proof.
  intros Hr Hfit.
  apply read_u32_lookup in Hr as (H0 & a & b & c & d & Ha & Hb & Hc & Hd & ->).
  unfold load32. rewrite view_wrap, !add_add.
  replace off with (Z.of_nat (Z.to_nat off)) at 1 by lia.
  replace (off + 1) with (Z.of_nat (S (Z.to_nat off))) by lia.
  replace (off + 2) with (Z.of_nat (S (S (Z.to_nat off)))) by lia.
  replace (off + 3) with (Z.of_nat (S (S (S (Z.to_nat off))))) by lia.
  rewrite (view_inside s _ a Ha), (view_inside s _ b Hb),
    (view_inside s _ c Hc), (view_inside s _ d Hd) by lia.
  reflexivity.
Qed.

Lemma fetch32_hdrbuf (s : state) (off v : Z) :
  read_u32 (hdrbuf s) off = Some v -> off + 4 <= 256 ->
  fetch32 hw s (U32.add (hdrbuf_at hw) off) = Some v.
Proof.
  intros Hr Hfit. unfold fetch32. rewrite sub_add_cancel.
  assert (H0 : 0 <= off) by (apply read_u32_lookup in Hr; tauto).
  rewrite wrap_small by (unfold U32.in_range, U32.modulus; lia).
  unfold HDRBUF_SIZE. destruct (Z.ltb_spec (256 - 4) off); [lia|].
  cbn [andb]. f_equal. apply load32_hdrbuf; assumption.
Qed.

(** What a fetch returns is a 32-bit value, and it depends on memory
    alone. *)
Lemma fetch32_range (s : state) (a v : Z) :
  fetch32 hw s a = Some v -> U32.in_range v.
Proof.
  unfold fetch32. case_match; [discriminate|]. intros [= <-].
  unfold load32.
  pose proof (decode_be_bound [view hw s (U32.wrap a); view hw s (U32.add a 1);
                               view hw s (U32.add a 2); view hw s (U32.add a 3)]) as Hb.
  cbn [length] in Hb. change (256 ^ Z.of_nat 4) with (2^32) in Hb. exact Hb.
Qed.

End Memory.

Lemma read_u32_Some_bounds (buf : list byte) (off v : Z) :
  read_u32 buf off = Some v -> 0 <= off /\ off + 4 <= Z.of_nat (length buf).
Proof.
  unfold read_u32, sub_bytes. intros H.
  destruct (Z.leb_spec 0 off);
    destruct (Z.leb_spec (off + Z.of_nat 4) (Z.of_nat (length buf)));
    cbn [andb fmap option_fmap option_map] in H; try discriminate.
  lia.
Qed.

(** ** Validation and the segment scan *)

Lemma read_u8_lookup (buf : list byte) (i : nat) (b : byte) :
  buf !! i = Some b -> read_u8 buf (Z.of_nat i) = Some (byte_to_Z b).
Proof.
  intros H. unfold read_u8, sub_bytes.
  assert (Hl : (i < length buf)%nat) by (apply lookup_lt_is_Some; eauto).
  destruct (Z.leb_spec 0 (Z.of_nat i)); [|lia].
  destruct (Z.leb_spec (Z.of_nat i + Z.of_nat 1) (Z.of_nat (length buf))); [|lia].
  cbn [andb fmap option_fmap option_map]. rewrite Nat2Z.id, (drop_S _ _ _ H).
  cbn [take]. unfold decode_be. cbn [fold_left]. f_equal.
Qed.

Section Scan.

Variable hw : platform.

(** One block of [main] and what it leaves behind, for the validator. *)
Lemma validate_step (s : state) :
  pc s = PValidate -> length (hdrbuf s) = 256%nat ->
  exists b1 b2 b3 bc : byte,
    hdrbuf s !! 1%nat = Some b1 /\ hdrbuf s !! 2%nat = Some b2
    /\ hdrbuf s !! 3%nat = Some b3 /\ hdrbuf s !! 4%nat = Some bc
    /\ step hw s
       = goto PLocate
           (emit ((if negb (byte_to_Z b1 =? byte_to_Z "E")
                      || negb (byte_to_Z b2 =? byte_to_Z "L")
                      || negb (byte_to_Z b3 =? byte_to_Z "F")
                   then [EvPrintf (line "Not an ELF kernel?")] else [])
                  ++ (if negb (byte_to_Z bc =? ELFCLASS32)
                      then [EvPrintf (line "Not a 32-bit kernel?")] else []))
              s).
Proof.
  intros Hpc Hl.
  destruct (lookup_lt_is_Some_2 (hdrbuf s) 1 ltac:(lia)) as [b1 H1].
  destruct (lookup_lt_is_Some_2 (hdrbuf s) 2 ltac:(lia)) as [b2 H2].
  destruct (lookup_lt_is_Some_2 (hdrbuf s) 3 ltac:(lia)) as [b3 H3].
  destruct (lookup_lt_is_Some_2 (hdrbuf s) 4 ltac:(lia)) as [bc H4].
  exists b1, b2, b3, bc. repeat (split; [assumption|]).
  unfold step. rewrite Hpc. unfold do_validate, ident_differs, e_ident.
  change 1 with (Z.of_nat 1) at 1. change 2 with (Z.of_nat 2) at 1.
  change 3 with (Z.of_nat 3) at 1. unfold EI_CLASS. change 4 with (Z.of_nat 4) at 1.
  rewrite (read_u8_lookup _ _ _ H1), (read_u8_lookup _ _ _ H2),
    (read_u8_lookup _ _ _ H3), (read_u8_lookup _ _ _ H4).
  cbn [fmap option_fmap option_map].
  destruct s as [p r h k d o q f t]. unfold goto, emit. proj_simpl.
  repeat case_match; proj_simpl; rewrite <- ?app_assoc, ?app_nil_r; reflexivity.
Qed.

(** The scan from a position: [k] entries that are not loadable, then
    one that is, wherever in memory they are. *)
Lemma scan_reaches (k : nat) :
  forall s : state,
    pc s = PScan ->
    (forall j : nat, (j < k)%nat ->
       exists t, fetch32 hw s (U32.add (hdrbuf_at hw)
                                 (phdr s + SIZEOF_Elf32_Phdr * Z.of_nat j)) = Some t
                 /\ t <> PT_LOAD) ->
    fetch32 hw s (U32.add (hdrbuf_at hw)
                    (phdr s + SIZEOF_Elf32_Phdr * Z.of_nat k)) = Some PT_LOAD ->
    (forall i : nat, (i <= k)%nat ->
       pc (run hw i s) = PScan
       /\ phdr (run hw i s) = phdr s + SIZEOF_Elf32_Phdr * Z.of_nat i)
    /\ pc (run hw (S k) s) = PLoad
    /\ phdr (run hw (S k) s) = phdr s + SIZEOF_Elf32_Phdr * Z.of_nat k
    /\ hdrbuf (run hw (S k) s) = hdrbuf s
    /\ ram (run hw (S k) s) = ram s.
Proof.
  unfold SIZEOF_Elf32_Phdr.
  induction k as [|k IH]; intros s Hpc Hbefore Hhit.
  - split.
    { intros i Hi. replace i with 0%nat by lia. cbn [run].
      split; [exact Hpc|]. lia. }
    cbn [run]. unfold step. rewrite Hpc. unfold do_scan, phdr_field, OFF_p_type.
    replace (phdr s + 32 * Z.of_nat 0) with (phdr s + 0) in Hhit by lia.
    rewrite Hhit. unfold PT_LOAD. change (1 =? 1) with true. proj_simpl.
    repeat split. lia.
  - destruct (Hbefore 0%nat ltac:(lia)) as (t & Ht & Hne).
    replace (phdr s + 32 * Z.of_nat 0) with (phdr s + 0) in Ht by lia.
    assert (Hstep : step hw s = set_phdr (phdr s + 32) s).
    { unfold step. rewrite Hpc.
      unfold do_scan, phdr_field, OFF_p_type, SIZEOF_Elf32_Phdr.
      rewrite Ht. destruct (Z.eqb_spec t PT_LOAD); [contradiction|]. reflexivity. }
    assert (Hf : forall a, fetch32 hw (set_phdr (phdr s + 32) s) a = fetch32 hw s a)
      by reflexivity.
    specialize (IH (set_phdr (phdr s + 32) s)). proj_simpl.
    destruct IH as (IH1 & IH2 & IH3 & IH4 & IH5).
    + exact Hpc.
    + intros j Hj. destruct (Hbefore (S j) ltac:(lia)) as (t' & Ht' & Hne').
      exists t'. split; [|exact Hne']. rewrite Hf.
      replace (phdr s + 32 + 32 * Z.of_nat j) with (phdr s + 32 * Z.of_nat (S j)) by lia.
      exact Ht'.
    + rewrite Hf.
      replace (phdr s + 32 + 32 * Z.of_nat k) with (phdr s + 32 * Z.of_nat (S k)) by lia.
      exact Hhit.
    + split.
      { intros [|i] Hi.
        - cbn [run]. split; [exact Hpc|]. lia.
        - cbn [run]. rewrite Hstep. destruct (IH1 i ltac:(lia)) as (-> & ->).
          split; [reflexivity|]. lia. }
      change (run hw (S (S k)) s) with (run hw (S k) (step hw s)).
      rewrite Hstep, IH2, IH3, IH4, IH5. repeat split. lia.
Qed.

(** The same for entries inside [hdrbuf]. *)
Lemma scan_reaches_hdrbuf (k : nat) (s : state) :
  pc s = PScan -> length (hdrbuf s) = 256%nat ->
  (forall j : nat, (j < k)%nat ->
     exists t, read_u32 (hdrbuf s) (phdr s + SIZEOF_Elf32_Phdr * Z.of_nat j) = Some t
               /\ t <> PT_LOAD) ->
  read_u32 (hdrbuf s) (phdr s + SIZEOF_Elf32_Phdr * Z.of_nat k) = Some PT_LOAD ->
  (forall i : nat, (i <= k)%nat ->
     pc (run hw i s) = PScan
     /\ phdr (run hw i s) = phdr s + SIZEOF_Elf32_Phdr * Z.of_nat i)
  /\ pc (run hw (S k) s) = PLoad
  /\ phdr (run hw (S k) s) = phdr s + SIZEOF_Elf32_Phdr * Z.of_nat k
  /\ hdrbuf (run hw (S k) s) = hdrbuf s
  /\ ram (run hw (S k) s) = ram s.
Proof.
  intros Hpc Hl Hbefore Hhit. apply scan_reaches; [exact Hpc | |].
  - intros j Hj. destruct (Hbefore j Hj) as (t & Ht & Hne).
    exists t. split; [|exact Hne]. apply fetch32_hdrbuf; [exact Ht|].
    apply read_u32_Some_bounds in Ht. lia.
  - apply fetch32_hdrbuf; [exact Hhit|].
    apply read_u32_Some_bounds in Hhit. lia.
Qed.

End Scan.

(** C4. The two checks of the validator only print. Whatever the
    identification bytes of the loaded header are, the next block is the
    segment location, and everything the loader does from there on is
    what it does after a clean validation; the trace alone differs, by
    the diagnostics, which are appended to it. A diagnostic is printed
    exactly for a wrong magic and for a wrong class byte, and none for a
    header that has both right. *)
Theorem C4_validation_nonfatal (hw : platform) (s : state) :
  pc s = PValidate -> length (hdrbuf s) = 256%nat ->
  exists diag : list event,
    step hw s = goto PLocate (emit diag s)
    /\ pc (step hw s) = PLocate
    /\ trace (step hw s) = trace s ++ diag
    /\ (magic_ok (hdrbuf s) -> class_ok (hdrbuf s) -> diag = [])
    /\ (~ magic_ok (hdrbuf s) -> class_ok (hdrbuf s) ->
        diag = [EvPrintf (line "Not an ELF kernel?")])
    /\ (magic_ok (hdrbuf s) -> ~ class_ok (hdrbuf s) ->
        diag = [EvPrintf (line "Not a 32-bit kernel?")])
    /\ (~ magic_ok (hdrbuf s) -> ~ class_ok (hdrbuf s) ->
        diag = [EvPrintf (line "Not an ELF kernel?");
                EvPrintf (line "Not a 32-bit kernel?")])
    /\ (forall n : nat,
          machine (run hw n (step hw s)) = machine (run hw n (goto PLocate s))).
Proof.
  intros Hpc Hl.
  destruct (validate_step hw s Hpc Hl) as (b1 & b2 & b3 & bc & H1 & H2 & H3 & H4 & Hs).
  eexists. split; [exact Hs|].
  split; [rewrite Hs; reflexivity|].
  split; [rewrite Hs; reflexivity|].
  assert (Hm : magic_ok (hdrbuf s) <->
               negb (byte_to_Z b1 =? byte_to_Z "E")
               || negb (byte_to_Z b2 =? byte_to_Z "L")
               || negb (byte_to_Z b3 =? byte_to_Z "F") = false).
  { unfold magic_ok. rewrite H1, H2, H3. rewrite !orb_false_iff.
    rewrite !negb_false_iff, !Z.eqb_eq. split.
    - intros ([= ->] & [= ->] & [= ->]). auto.
    - intros ((E1 & E2) & E3).
      apply byte_to_Z_inj in E1, E2, E3. subst. auto. }
  assert (Hc : class_ok (hdrbuf s) <-> negb (byte_to_Z bc =? ELFCLASS32) = false).
  { unfold class_ok. rewrite H4, negb_false_iff, Z.eqb_eq. split.
    - intros [= ->]. reflexivity.
    - intros E. f_equal. apply byte_to_Z_inj. exact E. }
  destruct (negb (byte_to_Z b1 =? byte_to_Z "E")
            || negb (byte_to_Z b2 =? byte_to_Z "L")
            || negb (byte_to_Z b3 =? byte_to_Z "F")) eqn:Em;
    destruct (negb (byte_to_Z bc =? ELFCLASS32)) eqn:Ec;
    (repeat split;
     [ intros; try reflexivity; exfalso;
       (intuition discriminate) || (intuition congruence) .. | ]);
    intros n; apply run_machine; rewrite Hs; reflexivity.
Qed.

(** The header of the specification's scenario, [0x7f 'X' 'L' 'F']: the
    magic diagnostic is the one event the block adds to the trace, and
    the loader goes on to find the segment and to load it. *)
Lemma C4_validation_nonfatal_witness :
  pc (main Demo.hw_bad_magic 4) = PValidate
  /\ length (hdrbuf (main Demo.hw_bad_magic 4)) = 256%nat
  /\ pc (main Demo.hw_bad_magic 5) = PLocate
  /\ pc (main Demo.hw_bad_magic 9) = PEntry
  /\ trace (main Demo.hw_bad_magic 5)
     = trace (main Demo.hw_bad_magic 4) ++ [EvPrintf (line "Not an ELF kernel?")]
  /\ exists diag : list event,
       trace (step Demo.hw_bad_magic (main Demo.hw_bad_magic 4))
       = trace (main Demo.hw_bad_magic 4) ++ diag
       /\ (~ magic_ok (hdrbuf (main Demo.hw_bad_magic 4)) ->
           class_ok (hdrbuf (main Demo.hw_bad_magic 4)) ->
           diag = [EvPrintf (line "Not an ELF kernel?")]).
Proof.
  split; [reflexivity|]. split; [reflexivity|]. split; [reflexivity|].
  split; [reflexivity|]. split; [vm_compute; reflexivity|].
  destruct (C4_validation_nonfatal Demo.hw_bad_magic (main Demo.hw_bad_magic 4)
              eq_refl eq_refl) as (diag & _ & _ & Ht & _ & Hbad & _).
  exists diag. split; assumption.
Defined.

(** C5. The segment is found by a linear scan that starts at the
    program-header offset of the header and stops at the first entry of
    type 1. For a table whose entries up to the first loadable one lie
    in the 256 bytes of the header buffer, at an offset that is a
    multiple of 4: with entries [0 .. k-1] not loadable and entry [k]
    loadable, the scan visits exactly those entries in order and selects
    entry [k]; a header that differs only behind the type word of entry
    [k] gives the same selection, so no later entry is consulted. *)
Theorem C5_first_loadable (hw : platform) (s : state) (e_phoff : Z) (k : nat) :
  pc s = PLocate -> length (hdrbuf s) = 256%nat ->
  read_u32 (hdrbuf s) OFF_e_phoff = Some e_phoff ->
  e_phoff mod ALIGNOF_Elf32_Phdr = 0 ->
  (forall j : nat, (j < k)%nat ->
     exists t, read_u32 (hdrbuf s) (e_phoff + SIZEOF_Elf32_Phdr * Z.of_nat j) = Some t
               /\ t <> PT_LOAD) ->
  read_u32 (hdrbuf s) (e_phoff + SIZEOF_Elf32_Phdr * Z.of_nat k) = Some PT_LOAD ->
  (forall i : nat, (i <= k)%nat ->
     pc (run hw (S i) s) = PScan
     /\ phdr (run hw (S i) s) = e_phoff + SIZEOF_Elf32_Phdr * Z.of_nat i)
  /\ pc (run hw (S (S k)) s) = PLoad
  /\ phdr (run hw (S (S k)) s) = e_phoff + SIZEOF_Elf32_Phdr * Z.of_nat k
  /\ (forall s2 : state,
        pc s2 = PLocate -> length (hdrbuf s2) = 256%nat ->
        read_u32 (hdrbuf s2) OFF_e_phoff = Some e_phoff ->
        (forall i : nat,
           (Z.of_nat i < e_phoff + SIZEOF_Elf32_Phdr * Z.of_nat k + 4) ->
           hdrbuf s2 !! i = hdrbuf s !! i) ->
        pc (run hw (S (S k)) s2) = PLoad
        /\ phdr (run hw (S (S k)) s2) = e_phoff + SIZEOF_Elf32_Phdr * Z.of_nat k).
Proof.
  intros Hpc Hl Hoff Halign Hbefore Hhit.
  assert (Hgen : forall s2 : state,
             pc s2 = PLocate -> length (hdrbuf s2) = 256%nat ->
             read_u32 (hdrbuf s2) OFF_e_phoff = Some e_phoff ->
             (forall i : nat,
                (Z.of_nat i < e_phoff + SIZEOF_Elf32_Phdr * Z.of_nat k + 4) ->
                hdrbuf s2 !! i = hdrbuf s !! i) ->
             (forall i : nat, (i <= k)%nat ->
                pc (run hw (S i) s2) = PScan
                /\ phdr (run hw (S i) s2) = e_phoff + SIZEOF_Elf32_Phdr * Z.of_nat i)
             /\ pc (run hw (S (S k)) s2) = PLoad
             /\ phdr (run hw (S (S k)) s2) = e_phoff + SIZEOF_Elf32_Phdr * Z.of_nat k).
  { intros s2 Hpc2 Hl2 Hoff2 Hag.
    assert (Hs : step hw s2 = goto PScan (set_phdr e_phoff s2)).
    { unfold step. rewrite Hpc2. unfold do_locate. rewrite Hoff2, Halign.
      reflexivity. }
    assert (H0 : 0 <= e_phoff).
    { apply read_u32_range in Hoff. destruct Hoff. assumption. }
    destruct (scan_reaches_hdrbuf hw k (goto PScan (set_phdr e_phoff s2)))
      as (S1 & S2 & S3 & _); proj_simpl.
    - reflexivity.
    - exact Hl2.
    - intros j Hj. destruct (Hbefore j Hj) as (t & Ht & Hne).
      exists t. split; [|exact Hne].
      apply (read_u32_agree (hdrbuf s)); [exact Ht|].
      intros i Hi. apply Hag. unfold SIZEOF_Elf32_Phdr in *. lia.
    - apply (read_u32_agree (hdrbuf s)); [exact Hhit|].
      intros i Hi. apply Hag. unfold SIZEOF_Elf32_Phdr in *. lia.
    - split; [|split].
      + intros i Hi. change (run hw (S i) s2) with (run hw i (step hw s2)).
        rewrite Hs. apply S1. exact Hi.
      + change (run hw (S (S k)) s2) with (run hw (S k) (step hw s2)).
        rewrite Hs. exact S2.
      + change (run hw (S (S k)) s2) with (run hw (S k) (step hw s2)).
        rewrite Hs. exact S3. }
  destruct (Hgen s Hpc Hl Hoff (fun _ _ => eq_refl)) as (G1 & G2 & G3).
  split; [exact G1|]. split; [exact G2|]. split; [exact G3|].
  intros s2 Hpc2 Hl2 Hoff2 Hag.
  destruct (Hgen s2 Hpc2 Hl2 Hoff2 Hag) as (_ & F2 & F3). auto.
Qed.

(** The demonstration image: entry 0 has type [0x70000000], entry 1 is
    loadable and is the one selected. *)
Lemma C5_first_loadable_witness :
  pc (main Demo.hw 5) = PLocate
  /\ length (hdrbuf (main Demo.hw 5)) = 256%nat
  /\ read_u32 (hdrbuf (main Demo.hw 5)) OFF_e_phoff = Some 52
  /\ 52 mod ALIGNOF_Elf32_Phdr = 0
  /\ pc (run Demo.hw 3 (main Demo.hw 5)) = PLoad
  /\ phdr (run Demo.hw 3 (main Demo.hw 5)) = 52 + SIZEOF_Elf32_Phdr * Z.of_nat 1.
Proof.
  split; [reflexivity|]. split; [reflexivity|]. split; [reflexivity|].
  split; [reflexivity|].
  destruct (C5_first_loadable Demo.hw (main Demo.hw 5) 52 1 eq_refl eq_refl
              eq_refl eq_refl)
    as (_ & H2 & H3 & _).
  - intros j Hj. exists 0x70000000. replace j with 0%nat by lia.
    split; [reflexivity | discriminate].
  - reflexivity.
  - split; assumption.
Defined.

(** A table of eight entries on the cartridge, at offset 52 of the
    image, of which the last alone is loadable: it is at offset 276,
    behind the 256 bytes the loader reads. The turn of the scan on
    entry 7 reads memory behind [hdrbuf], not the table, and goes on
    to entry 8: the first loadable entry of the table is not
    selected. *)
Lemma C5_counterexample :
  dma_u32 Cases.hw_far (U32.add CART_IMAGE OFF_e_phoff) = 52
  /\ forallb (fun j => negb (dma_u32 Cases.hw_far
                               (CART_IMAGE + 52 + SIZEOF_Elf32_Phdr * j) =? PT_LOAD))
       (seqZ 0 7) = true
  /\ dma_u32 Cases.hw_far (CART_IMAGE + 52 + SIZEOF_Elf32_Phdr * 7) = PT_LOAD
  /\ pc (main Cases.hw_far 13) = PScan
  /\ phdr (main Cases.hw_far 13) = 52 + SIZEOF_Elf32_Phdr * 7
  /\ pc (main Cases.hw_far 14) = PScan
  /\ phdr (main Cases.hw_far 14) = 52 + SIZEOF_Elf32_Phdr * 8
  /\ forallb (fun n => match pc (main Cases.hw_far n) with
                       | PLoad => false
                       | _ => true
                       end) (seq 0 64) = true.
Proof. vm_compute. repeat split. Qed.

(** ** Loading the segment *)

Lemma wrap_neg (x : Z) : - U32.modulus <= x < 0 -> U32.wrap x = x + U32.modulus.
Proof.
  intros H. unfold U32.wrap. symmetry.
  apply (Z.mod_unique_pos x U32.modulus (-1)); unfold U32.modulus in *; lia.
Qed.

(** The distance of [base + i] from [base + j], for offsets inside the
    address space. *)
Lemma sub_offsets (base i j : Z) :
  U32.sub (U32.wrap (base + i)) (U32.add base j) = U32.wrap (i - j).
Proof.
  unfold U32.sub, U32.add. rewrite wrap_sub_l, wrap_sub_r. f_equal. lia.
Qed.

Lemma sub_offset_base (base i : Z) :
  U32.in_range base -> U32.sub (U32.wrap (base + i)) base = U32.wrap i.
Proof.
  intros Hb. unfold U32.sub. rewrite wrap_sub_l. f_equal. lia.
Qed.

Section Load.

Variable hw : platform.

Lemma view_emit (evs : list event) (s : state) : view hw (emit evs s) = view hw s.
Proof. reflexivity. Qed.

Lemma view_goto (p : phase) (s : state) : view hw (goto p s) = view hw s.
Proof. reflexivity. Qed.

Lemma dma_read_outside (m : Z -> byte) (dst src len a : Z) :
  len <= U32.sub a dst -> dma_read hw m dst src len a = m a.
Proof.
  intros H. unfold dma_read.
  destruct (Z.ltb_spec (U32.sub a dst) len); [lia | reflexivity].
Qed.

(** A word that a store leaves alone reads as before. *)
Lemma fetch32_install (m : Z -> byte) (s s0 : state) (a : Z) :
  (forall i : Z, 0 <= i < 4 -> m (U32.add a i) = view hw s0 (U32.add a i)) ->
  fetch32 hw (install hw m s) a = fetch32 hw s0 a.
Proof.
  intros H. unfold fetch32. case_match; [reflexivity|]. f_equal.
  unfold load32. rewrite !view_install, wrap_wrap.
  assert (E0 : U32.wrap a = U32.add a 0) by (unfold U32.add; f_equal; lia).
  assert (Ew : forall i, U32.wrap (U32.add a i) = U32.add a i)
    by (intros i; apply wrap_wrap).
  rewrite !Ew, E0, !H by lia.
  rewrite <- E0, view_wrap. reflexivity.
Qed.

Lemma even_length_range (fs : Z) :
  U32.in_range fs -> U32.in_range (U32.land (U32.add fs 1) (U32.lnot 1)).
Proof.
  intros Hfs. destruct (round_up_pow2 fs 1 ltac:(lia) Hfs) as (A1 & _).
  change (2^1 - 1) with 1 in A1. rewrite A1. apply wrap_range.
Qed.

(** A field of [*phdr] that the transfer spares is what it was. *)
Lemma fields_kept (s : state) (n pa src len off : Z) :
  U32.in_range len -> n <= 12 -> spares_fields hw s n pa len ->
  OFF_p_paddr <= off -> off + 4 <= OFF_p_paddr + n ->
  forall s1 : state,
    phdr s1 = phdr s ->
    fetch32 hw (install hw (dma_read hw (view hw s) pa src len) s1)
      (phdr_field hw (install hw (dma_read hw (view hw s) pa src len) s1) off)
    = fetch32 hw s (phdr_field hw s off).
Proof.
  intros Hlen Hn Hsp Hoff1 Hoff2 s1 Hp. unfold phdr_field. proj_simpl. rewrite Hp.
  apply fetch32_install. intros i Hi.
  apply dma_read_outside.
  unfold spares_fields, phdr_field in Hsp.
  assert (E : U32.add (U32.add (hdrbuf_at hw) (phdr s + off)) i
              = U32.add (U32.add (hdrbuf_at hw) (phdr s + OFF_p_paddr))
                  (off - OFF_p_paddr + i)).
  { rewrite !add_add. f_equal. lia. }
  rewrite E.
  apply (touches_outside _ n); unfold U32.in_range, U32.modulus in *;
    try lia. exact Hsp.
Qed.

(** The fields of [*phdr] the block reads again are what they were, when
    the transfer spares the three of them. *)
Lemma descriptor_kept (s : state) (pa src len off : Z) :
  U32.in_range len -> spares_descriptor hw s pa len ->
  off = OFF_p_paddr \/ off = OFF_p_filesz \/ off = OFF_p_memsz ->
  forall s1 : state,
    phdr s1 = phdr s ->
    fetch32 hw (install hw (dma_read hw (view hw s) pa src len) s1)
      (phdr_field hw (install hw (dma_read hw (view hw s) pa src len) s1) off)
    = fetch32 hw s (phdr_field hw s off).
Proof.
  intros Hlen Hsp Hoff. apply (fields_kept s 12); try assumption; try lia;
    unfold OFF_p_paddr, OFF_p_filesz, OFF_p_memsz in *; lia.
Qed.

(** Whether a word can be loaded does not depend on what memory holds. *)
Lemma fetch32_defined (s s1 : state) (a v : Z) :
  fetch32 hw s a = Some v -> fetch32 hw s1 a = Some (load32 (view hw s1) a).
Proof. unfold fetch32. case_match; [discriminate | reflexivity]. Qed.

(** The block on a segment that stays clear of the loader and of its
    own descriptor. *)
Lemma load_step (s : state) (pa off fs ms : Z) :
  pc s = PLoad -> segment_at hw s pa off fs ms ->
  let src := U32.add CART_IMAGE off in
  let len := U32.land (U32.add fs 1) (U32.lnot 1) in
  let copied := dma_read hw (view hw s) pa src len in
  clear_of_loader hw pa len -> spares_descriptor hw s pa len ->
  (fs < ms -> clear_of_loader hw (U32.add pa fs) (U32.sub ms fs)) ->
  pc (step hw s) = PEntry
  /\ phdr (step hw s) = phdr s
  /\ trace (step hw s)
     = trace s ++ [EvLog (LogLoadAddress pa); EvLog (LogLoadOffset src);
                   EvDmaRead (TRam pa) src len;
                   EvCacheWritebackInvalidate (TRam pa)
                     (U32.land (U32.add fs 3) (U32.lnot 3))]
  /\ (forall a : Z,
        view hw (step hw s) a
        = (if fs <? ms
           then memset copied (U32.add pa fs) x00 (U32.sub ms fs)
           else copied) (U32.wrap a)).
Proof.
  intros Hpc (Hpa & Hoff & Hfs & Hms) src len copied Hclear Hsp Hclear0.
  assert (Hlen : U32.in_range len).
  { apply even_length_range. eapply fetch32_range. exact Hfs. }
  unfold step. rewrite Hpc. unfold do_load. rewrite Hpa, Hoff, Hfs.
  cbn zeta. fold src len. unfold clear_of_loader in Hclear. rewrite Hclear.
  rewrite !view_emit. subst copied.
  rewrite (descriptor_kept s pa src len OFF_p_paddr Hlen Hsp ltac:(auto))
    by reflexivity.
  rewrite (descriptor_kept s pa src len OFF_p_filesz Hlen Hsp ltac:(auto))
    by reflexivity.
  rewrite (descriptor_kept s pa src len OFF_p_memsz Hlen Hsp ltac:(auto))
    by reflexivity.
  rewrite Hpa, Hfs, Hms.
  destruct (Z.ltb_spec fs ms) as [Hlt|Hge].
  - unfold clear_of_loader in Hclear0. rewrite (Hclear0 Hlt). proj_simpl.
    rewrite <- !app_assoc. repeat split.
    intros a. rewrite view_goto, view_install. unfold memset.
    rewrite view_emit, view_install, wrap_wrap. reflexivity.
  - proj_simpl. rewrite <- !app_assoc. repeat split.
    intros a. rewrite view_goto, view_emit, view_install. reflexivity.
Qed.

(** What the block leaves in memory: the transferred bytes outside the
    zeroed tail, the zeroed tail, and everything beyond the segment. *)
Lemma load_ram (s : state) (pa off fs ms : Z) :
  pc s = PLoad -> segment_at hw s pa off fs ms ->
  let src := U32.add CART_IMAGE off in
  let len := U32.land (U32.add fs 1) (U32.lnot 1) in
  clear_of_loader hw pa len -> spares_descriptor hw s pa len ->
  (fs < ms -> clear_of_loader hw (U32.add pa fs) (U32.sub ms fs)) ->
  (forall i : Z,
     0 <= i < len -> ~ (fs <= i < ms) ->
     view hw (step hw s) (pa + i) = cart hw (U32.wrap (src + i)))
  /\ (forall a : Z,
        len <= U32.sub a pa -> ms <= U32.sub a pa ->
        view hw (step hw s) a = view hw s a)
  /\ (forall i : Z,
        fs <= i < ms -> view hw (step hw s) (pa + i) = x00).
Proof.
  intros Hpc Hseg src len Hclear Hsp Hclear0.
  destruct (load_step s pa off fs ms Hpc Hseg Hclear Hsp Hclear0)
    as (_ & _ & _ & Hr).
  fold src len in Hr.
  destruct Hseg as (Hpa & Hoff & Hfs & Hms).
  apply fetch32_range in Hpa, Hoff, Hfs, Hms.
  assert (Hlen : U32.in_range len) by (apply even_length_range; exact Hfs).
  destruct Hpa as [Hpa0 Hpa1], Hfs as [Hfs0 Hfs1], Hms as [Hms0 Hms1], Hlen as [Hl0 Hl1].
  unfold U32.modulus in *.
  split; [|split].
  - intros i Hi Hout. rewrite Hr.
    assert (Hdma : dma_read hw (view hw s) pa src len (U32.wrap (pa + i))
                   = cart hw (U32.wrap (src + i))).
    { unfold dma_read. rewrite sub_offset_base by (unfold U32.in_range, U32.modulus; lia).
      rewrite wrap_small by (unfold U32.in_range, U32.modulus; lia).
      destruct (Z.ltb_spec i len); [reflexivity | lia]. }
    destruct (Z.ltb_spec fs ms) as [Hlt|Hge]; [|exact Hdma].
    unfold memset. rewrite sub_offsets.
    unfold U32.sub. rewrite (wrap_small (ms - fs)) by (unfold U32.in_range, U32.modulus; lia).
    destruct (Z_lt_ge_dec i fs) as [Hi1|Hi1].
    + rewrite wrap_neg by (unfold U32.modulus; lia).
      unfold U32.modulus.
      destruct (Z.ltb_spec (i - fs + 2^32) (ms - fs)); [lia | exact Hdma].
    + rewrite wrap_small by (unfold U32.in_range, U32.modulus; lia).
      destruct (Z.ltb_spec (i - fs) (ms - fs)); [lia | exact Hdma].
  - intros a Ha1 Ha2. rewrite Hr.
    assert (Hdma : dma_read hw (view hw s) pa src len (U32.wrap a) = view hw s a).
    { rewrite dma_read_outside by (rewrite sub_wrap_l; exact Ha1).
      apply view_wrap. }
    destruct (Z.ltb_spec fs ms) as [Hlt|Hge]; [|exact Hdma].
    unfold memset. rewrite sub_wrap_l.
    assert (Hd : U32.sub a (U32.add pa fs) = U32.sub a pa - fs).
    { unfold U32.sub, U32.add. rewrite wrap_sub_r.
      replace (a - (pa + fs)) with ((a - pa) - fs) by lia.
      rewrite <- wrap_sub_l. apply wrap_small.
      pose proof (wrap_range (a - pa)) as [R0 R1].
      fold (U32.sub a pa) in *. unfold U32.in_range, U32.modulus in *. lia. }
    rewrite Hd. unfold U32.sub at 2.
    rewrite (wrap_small (ms - fs)) by (unfold U32.in_range, U32.modulus; lia).
    destruct (Z.ltb_spec (U32.sub a pa - fs) (ms - fs)); [lia | exact Hdma].
  - intros i Hi. rewrite Hr.
    destruct (Z.ltb_spec fs ms); [|lia].
    unfold memset. rewrite sub_offsets. unfold U32.sub.
    rewrite !wrap_small by (unfold U32.in_range, U32.modulus; lia).
    destruct (Z.ltb_spec (i - fs) (ms - fs)); [reflexivity | lia].
Qed.

End Load.

Section LoadTrace.

Variable hw : platform.


(** With [p_paddr] alone spared, the cache operation is still on the
    destination of the transfer, over the bytes that [p_filesz] then
    tells. *)
Lemma load_trace_dest (s : state) (pa off fs ms : Z) :
  pc s = PLoad -> segment_at hw s pa off fs ms ->
  let src := U32.add CART_IMAGE off in
  let len := U32.land (U32.add fs 1) (U32.lnot 1) in
  clear_of_loader hw pa len -> spares_fields hw s 4 pa len ->
  exists n : Z,
    trace (step hw s)
    = trace s ++ [EvLog (LogLoadAddress pa); EvLog (LogLoadOffset src);
                  EvDmaRead (TRam pa) src len;
                  EvCacheWritebackInvalidate (TRam pa) n].
Proof.
  intros Hpc (Hpa & Hoff & Hfs & Hms) src len Hclear Hsp.
  assert (Hlen : U32.in_range len).
  { apply even_length_range. eapply fetch32_range. exact Hfs. }
  unfold step. rewrite Hpc. unfold do_load. rewrite Hpa, Hoff, Hfs.
  cbn zeta. fold src len. unfold clear_of_loader in Hclear. rewrite Hclear.
  rewrite !view_emit.
  rewrite (fields_kept hw s 4 pa src len OFF_p_paddr Hlen ltac:(lia) Hsp
             ltac:(reflexivity) ltac:(unfold OFF_p_paddr; lia))
    by reflexivity.
  rewrite Hpa.
  match goal with
  | |- context [fetch32 hw ?s1 (phdr_field hw ?s1 OFF_p_filesz)] =>
      assert (Hf : fetch32 hw s1 (phdr_field hw s1 OFF_p_filesz)
                   = Some (load32 (view hw s1) (phdr_field hw s1 OFF_p_filesz)))
        by (apply (fetch32_defined hw s s1 _ fs); exact Hfs);
      assert (Hm : fetch32 hw s1 (phdr_field hw s1 OFF_p_memsz)
                   = Some (load32 (view hw s1) (phdr_field hw s1 OFF_p_memsz)))
        by (apply (fetch32_defined hw s s1 _ ms); exact Hms);
      rewrite Hf, Hm
  end.
  unfold undefined. eexists.
  repeat case_match; proj_simpl; rewrite <- !app_assoc; reflexivity.
Qed.

End LoadTrace.




(** C1. When the segment's memory size exceeds its file size, the block
    leaves every byte of [[p_paddr + p_filesz, p_paddr + p_memsz)] zero,
    and the bytes before them are the segment's bytes on the cartridge:
    the target range holds the file contents followed by zeros. This is
    so for a segment whose transfer and zeroing stay clear of the
    loader's own storage and whose transfer leaves alone the fields
    [p_paddr], [p_filesz] and [p_memsz] of its program header, which the
    zeroing reads again. Outside [hdrbuf] and the loader's storage,
    nothing the loader does afterwards changes memory. Addresses are
    taken modulo [2^32], as the pointer arithmetic of the loader does. *)
Theorem C1_tail_zeroed (hw : platform) (s : state) (pa off fs ms : Z) :
  pc s = PLoad -> segment_at hw s pa off fs ms -> fs < ms ->
  clear_of_loader hw pa (U32.land (U32.add fs 1) (U32.lnot 1)) ->
  spares_descriptor hw s pa (U32.land (U32.add fs 1) (U32.lnot 1)) ->
  clear_of_loader hw (U32.add pa fs) (U32.sub ms fs) ->
  (forall i : Z, fs <= i < ms ->
     view hw (step hw s) (pa + i) = x00)
  /\ (forall i : Z, 0 <= i < fs ->
        view hw (step hw s) (pa + i)
        = cart hw (U32.wrap (CART_IMAGE + off + i)))
  /\ (pa + ms <= U32.modulus ->
      forall a : Z, pa <= a < pa + ms ->
        view hw (step hw s) a
        = if a <? pa + fs then cart hw (U32.wrap (CART_IMAGE + off + (a - pa)))
          else x00)
  /\ (forall (n : nat) (a : Z),
        HDRBUF_SIZE <= U32.sub a (hdrbuf_at hw) ->
        hits_reserved hw a 1 = false ->
        view hw (run hw n (step hw s)) a = view hw (step hw s) a).
Proof.
  intros Hpc Hseg Hlt Hclear Hsp Hclear0.
  destruct (load_step hw s pa off fs ms Hpc Hseg Hclear Hsp (fun _ => Hclear0))
    as (Hnext & _).
  destruct (load_ram hw s pa off fs ms Hpc Hseg Hclear Hsp (fun _ => Hclear0))
    as (Hcopy & _ & Htail).
  destruct Hseg as (Hpa & Hoff & Hfs & Hms).
  apply fetch32_range in Hpa, Hoff, Hfs, Hms.
  destruct (round_up_pow2 fs 1 ltac:(lia) Hfs) as (_ & _ & Hlen).
  change (2^1 - 1) with 1 in Hlen. change (2^1) with 2 in Hlen.
  destruct Hpa as [Hpa0 Hpa1], Hfs as [Hfs0 Hfs1], Hms as [Hms0 Hms1].
  unfold U32.modulus in *.
  assert (Hhead : forall i : Z, 0 <= i < fs ->
                    view hw (step hw s) (pa + i)
                    = cart hw (U32.wrap (CART_IMAGE + off + i))).
  { intros i Hi. rewrite Hcopy by lia.
    f_equal. unfold U32.add. rewrite wrap_add_l. reflexivity. }
  split; [exact Htail|]. split; [exact Hhead|]. split.
  - intros Hfit a Ha.
    replace a with (pa + (a - pa)) at 1 by lia.
    destruct (Z.ltb_spec a (pa + fs)).
    + apply Hhead. lia.
    + apply Htail. lia.
  - intros n a Hout _. rewrite !view_outside by exact Hout.
    rewrite run_ram; [reflexivity|]. rewrite Hnext. cbn [phase_rank]. lia.
Qed.

(** The demonstration segment: 5 bytes from the cartridge, then 11 bytes
    of zero, and the byte the even-sized transfer brought along is among
    the zeroed ones. *)
Lemma C1_tail_zeroed_witness :
  pc (main Demo.hw 8) = PLoad
  /\ segment_at Demo.hw (main Demo.hw 8) 0x80001000 0x1000 5 16
  /\ 5 < 16
  /\ clear_of_loader Demo.hw 0x80001000 (U32.land (U32.add 5 1) (U32.lnot 1))
  /\ spares_descriptor Demo.hw (main Demo.hw 8) 0x80001000
       (U32.land (U32.add 5 1) (U32.lnot 1))
  /\ clear_of_loader Demo.hw (U32.add 0x80001000 5) (U32.sub 16 5)
  /\ view Demo.hw (step Demo.hw (main Demo.hw 8)) (0x80001000 + 5) = x00
  /\ view Demo.hw (step Demo.hw (main Demo.hw 8)) (0x80001000 + 15) = x00
  /\ view Demo.hw (step Demo.hw (main Demo.hw 8)) (0x80001000 + 4)
     = cart Demo.hw (U32.wrap (CART_IMAGE + 0x1000 + 4)).
Proof.
  assert (Hpc : pc (main Demo.hw 8) = PLoad) by (vm_compute; reflexivity).
  assert (Hseg : segment_at Demo.hw (main Demo.hw 8) 0x80001000 0x1000 5 16)
    by (vm_compute; repeat split).
  assert (Hc : clear_of_loader Demo.hw 0x80001000
                 (U32.land (U32.add 5 1) (U32.lnot 1)))
    by (vm_compute; reflexivity).
  assert (Hs : spares_descriptor Demo.hw (main Demo.hw 8) 0x80001000
                 (U32.land (U32.add 5 1) (U32.lnot 1)))
    by (vm_compute; reflexivity).
  assert (Hc0 : clear_of_loader Demo.hw (U32.add 0x80001000 5) (U32.sub 16 5))
    by (vm_compute; reflexivity).
  split; [exact Hpc|]. split; [exact Hseg|]. split; [lia|].
  split; [exact Hc|]. split; [exact Hs|]. split; [exact Hc0|].
  destruct (C1_tail_zeroed Demo.hw (main Demo.hw 8) _ _ _ _ Hpc Hseg
              ltac:(lia) Hc Hs Hc0)
    as (Htail & Hhead & _).
  split; [apply Htail; lia|]. split; [apply Htail; lia|]. apply Hhead; lia.
Defined.

(** The segment that is loaded over its own program header: 8 bytes of
    file data and 16 bytes of memory are asked for, but the transfer
    makes [p_filesz] equal to [p_memsz], the zeroing is skipped, and the
    fourth byte of the tail still holds the 7 of [p_flags]. *)
Lemma C1_counterexample :
  pc (main Cases.hw_self 7) = PLoad
  /\ segment_at Cases.hw_self (main Cases.hw_self 7) Cases.self_paddr 0x1000 8 16
  /\ 8 <= 11 < 16
  /\ view Cases.hw_self (step Cases.hw_self (main Cases.hw_self 7))
       (Cases.self_paddr + 11) = x07.
Proof. vm_compute. repeat split; discriminate. Qed.

(** ** The metadata records and the call *)

Lemma strip_prefix_app (key r : list byte) : strip_prefix key (key ++ r) = Some r.
Proof.
  induction key as [|k key IH]; [destruct r; reflexivity|].
  cbn [strip_prefix app]. rewrite (Byte.byte_dec_lb (eq_refl k)). exact IH.
Qed.

Lemma parse_record_utoa (key : string) (n : Z) :
  0 <= n < 10 ^ 20 -> parse_record key (text key ++ utoa n) = Some n.
Proof.
  intros Hn. unfold parse_record. rewrite strip_prefix_app.
  cbn [mbind option_bind]. apply atou_utoa. exact Hn.
Qed.

Lemma format_start (v : Z) :
  format (text "n64cart.start=%u") [v] = text "n64cart.start=" ++ utoa v.
Proof. rewrite <- (app_nil_r (utoa v)). reflexivity. Qed.

Lemma format_size (v : Z) :
  format (text "n64cart.size=%u") [v] = text "n64cart.size=" ++ utoa v.
Proof. rewrite <- (app_nil_r (utoa v)). reflexivity. Qed.

Lemma no_nul_app (a b : list byte) : no_nul a -> no_nul b -> no_nul (a ++ b).
Proof. unfold no_nul. intros. apply Forall_app. auto. Qed.

(** Clearing the whole of a 256-byte buffer leaves 256 zeros. *)
Lemma memset_buf_all (old : list byte) :
  length old = 256%nat -> memset_buf old 0 x00 256 = Some (replicate 256 x00).
Proof.
  intros Hold. unfold memset_buf, write_bytes.
  rewrite length_replicate, Hold.
  change ((0 <=? 0) && (0 + Z.of_nat 256 <=? Z.of_nat 256)) with true.
  cbn [Z.to_nat take Nat.add app].
  rewrite drop_ge by lia. rewrite app_nil_r. reflexivity.
Qed.

(** What the buffer held before the block does not matter. *)
Lemma write_metadata_clears (old : list byte) (start size : Z) :
  length old = 256%nat ->
  write_metadata old start size
  = write_metadata (replicate 256 x00) start size.
Proof.
  intros Hold. unfold write_metadata.
  rewrite (memset_buf_all old Hold).
  rewrite (memset_buf_all (replicate 256 x00)) by apply length_replicate.
  reflexivity.
Qed.

(** The buffer the metadata block builds, byte by byte: the first record
    and its terminator from 0, the second from 128, zero elsewhere. *)
Lemma write_metadata_bytes (old : list byte) (start size : Z) :
  length old = 256%nat ->
  U32.in_range start -> U32.in_range size ->
  let r1 := text "n64cart.start=" ++ utoa start in
  let r2 := text "n64cart.size=" ++ utoa size in
  (length r1 < 25)%nat /\ (length r2 < 24)%nat
  /\ exists buf : list byte,
       write_metadata old start size = Some buf
       /\ length buf = 256%nat
       /\ (forall i : nat, (i < length r1)%nat -> buf !! i = r1 !! i)
       /\ (forall i : nat, (i < length r2)%nat -> buf !! (128 + i)%nat = r2 !! i)
       /\ (forall i : nat,
             (length r1 <= i < 128)%nat \/ (128 + length r2 <= i < 256)%nat ->
             buf !! i = Some x00).
Proof.
  intros Hold Hs Hz r1 r2.
  pose proof (utoa_length_u32 start Hs) as L1.
  pose proof (utoa_length_u32 size Hz) as L2.
  assert (E1 : length r1 = (14 + length (utoa start))%nat)
    by (unfold r1; rewrite length_app; reflexivity).
  assert (E2 : length r2 = (13 + length (utoa size))%nat)
    by (unfold r2; rewrite length_app; reflexivity).
  split; [lia|]. split; [lia|].
  unfold write_metadata, sprintf. rewrite format_start, format_size.
  fold r1 r2. change (0 + 128) with 128. clearbody r1 r2.
  rewrite (memset_buf_all old Hold). cbn [mbind option_bind].
  set (zeros := replicate 256 x00).
  assert (Hzl : length zeros = 256%nat) by (unfold zeros; apply length_replicate).
  destruct (write_bytes_fits zeros (r1 ++ [x00]) 0) as [b1 Hb1];
    [lia | rewrite length_app, Hzl; cbn [length]; lia |].
  rewrite Hb1. cbn [mbind option_bind].
  pose proof (write_bytes_length _ _ _ _ Hb1) as Hl1. rewrite Hzl in Hl1.
  destruct (write_bytes_fits b1 (r2 ++ [x00]) 128) as [b2 Hb2];
    [lia | rewrite length_app, Hl1; cbn [length]; lia |].
  rewrite Hb2. exists b2.
  pose proof (write_bytes_length _ _ _ _ Hb2) as Hl2. rewrite Hl1 in Hl2.
  split; [reflexivity|]. split; [exact Hl2|].
  assert (Hlook : forall i : nat,
            b2 !! i
            = if decide (128 <= i < 128 + length (r2 ++ [x00]))%nat
              then (r2 ++ [x00]) !! (i - 128)%nat
              else if decide (0 <= i < 0 + length (r1 ++ [x00]))%nat
                   then (r1 ++ [x00]) !! (i - 0)%nat
                   else zeros !! i).
  { intros i. rewrite (write_bytes_lookup _ _ _ _ i Hb2).
    change (Z.to_nat 128) with 128%nat.
    case_decide; [reflexivity|].
    rewrite (write_bytes_lookup _ _ _ _ i Hb1). reflexivity. }
  rewrite !length_app in Hlook. cbn [length] in Hlook.
  split; [|split].
  - intros i Hi. rewrite Hlook.
    case_decide; [lia|]. case_decide; [|lia].
    rewrite Nat.sub_0_r. apply lookup_app_l. exact Hi.
  - intros i Hi. rewrite Hlook.
    case_decide; [|lia].
    replace (128 + i - 128)%nat with i by lia. apply lookup_app_l. exact Hi.
  - intros i Hi. rewrite Hlook.
    case_decide as D1.
    + assert (i = (128 + length r2)%nat) as -> by lia.
      replace (128 + length r2 - 128)%nat with (length r2) by lia.
      rewrite lookup_app_r by lia. rewrite Nat.sub_diag. reflexivity.
    + case_decide as D2.
      * assert (i = length r1) as -> by lia.
        rewrite Nat.sub_0_r, lookup_app_r by lia. rewrite Nat.sub_diag. reflexivity.
      * unfold zeros. apply lookup_replicate_2. lia.
Qed.

Section Metadata.

Variable hw : platform.

(** The metadata block, on a state whose objects have their C types. *)
Lemma metadata_step (s : state) :
  pc s = PMetadata -> wf s ->
  let start := U32.add CART_IMAGE (diskoff s) in
  let r1 := text "n64cart.start=" ++ utoa start in
  let r2 := text "n64cart.size=" ++ utoa (disksize s) in
  pc (step hw s) = PTransfer
  /\ write_metadata (hdrbuf s) start (disksize s) = Some (hdrbuf (step hw s))
  /\ length (hdrbuf (step hw s)) = 256%nat
  /\ (length r1 < 25)%nat /\ (length r2 < 24)%nat
  /\ cstring_at (hdrbuf (step hw s)) 0 = r1
  /\ cstring_at (hdrbuf (step hw s)) 128 = r2
  /\ (forall i : nat,
        (length r1 <= i < 128)%nat \/ (128 + length r2 <= i < 256)%nat ->
        hdrbuf (step hw s) !! i = Some x00).
Proof.
  intros Hpc (Hlen & _ & Hd & _) start r1 r2.
  destruct (write_metadata_bytes (hdrbuf s) start (disksize s) Hlen (wrap_range _) Hd)
    as (L1 & L2 & buf & Hw & Hl & H1 & H2 & H0).
  fold r1 r2 in L1, L2, H1, H2, H0.
  assert (Hs : pc (step hw s) = PTransfer /\ hdrbuf (step hw s) = buf).
  { unfold step. rewrite Hpc. unfold do_metadata. fold start. rewrite Hw.
    proj_simpl. auto. }
  destruct Hs as (Hp & ->).
  assert (N1 : no_nul r1).
  { apply no_nul_app; [apply no_nul_forallb; reflexivity | apply utoa_no_nul]. }
  assert (N2 : no_nul r2).
  { apply no_nul_app; [apply no_nul_forallb; reflexivity | apply utoa_no_nul]. }
  repeat (split; [assumption|]).
  split; [|split; [|exact H0]].
  - apply cstring_at_lookup; [exact N1 | exact H1 |].
    apply H0. cbn [Nat.add]. lia.
  - apply cstring_at_lookup; [exact N2 | exact H2 |].
    apply H0. lia.
Qed.

End Metadata.

(** C7. The metadata block clears [hdrbuf] and writes two NUL-terminated
    records, ["n64cart.start=%u"] at offset 0 with [0xB0101000 + diskoff]
    (a 32-bit sum) and ["n64cart.size=%u"] at offset 128 with [disksize].
    Whatever the two values are, reading the decimal numbers back out of
    the records gives the numbers that were written, and [diskoff] is
    recovered from the first one. What the buffer held before does not
    matter. *)
Theorem C7_metadata_roundtrip (hw : platform) (s : state) :
  pc s = PMetadata -> wf s ->
  let start := (CART_IMAGE + diskoff s) mod 2^32 in
  let buf := hdrbuf (step hw s) in
  pc (step hw s) = PTransfer
  /\ length buf = 256%nat
  /\ cstring_at buf 0 = text "n64cart.start=" ++ utoa start
  /\ cstring_at buf 128 = text "n64cart.size=" ++ utoa (disksize s)
  /\ parse_record "n64cart.start=" (cstring_at buf 0) = Some start
  /\ parse_record "n64cart.size=" (cstring_at buf 128) = Some (disksize s)
  /\ (start - CART_IMAGE) mod 2^32 = diskoff s
  /\ (CART_IMAGE + diskoff s < 2^32 -> start = CART_IMAGE + diskoff s)
  /\ (forall s2 : state,
        pc s2 = PMetadata -> wf s2 ->
        diskoff s2 = diskoff s -> disksize s2 = disksize s ->
        hdrbuf (step hw s2) = buf).
Proof.
  intros Hpc Hwf start buf.
  destruct (metadata_step hw s Hpc Hwf) as (Hp & Hw & Hl & _ & _ & C1 & C2 & _).
  destruct Hwf as (Hlen & _ & (Hd0 & Hd1) & (Ho0 & Ho1)).
  pose proof (wrap_range (CART_IMAGE + diskoff s)) as (Hs0 & Hs1).
  unfold U32.modulus in *.
  change (U32.add CART_IMAGE (diskoff s)) with start in *.
  change (U32.wrap (CART_IMAGE + diskoff s)) with start in *.
  fold buf in Hl, C1, C2, Hw.
  split; [exact Hp|]. split; [exact Hl|]. split; [exact C1|]. split; [exact C2|].
  split; [rewrite C1; apply parse_record_utoa; lia|].
  split; [rewrite C2; apply parse_record_utoa; lia|].
  split; [|split].
  - unfold start. rewrite Zminus_mod_idemp_l.
    replace (CART_IMAGE + diskoff s - CART_IMAGE) with (diskoff s) by lia.
    apply Z.mod_small. lia.
  - intros Hfit. unfold start. apply Z.mod_small. unfold CART_IMAGE in *. lia.
  - intros s2 Hpc2 Hwf2 Eo Ed.
    destruct (metadata_step hw s2 Hpc2 Hwf2) as (_ & Hw2 & _).
    destruct Hwf2 as (Hlen2 & _).
    rewrite Eo, Ed in Hw2.
    change (U32.add CART_IMAGE (diskoff s)) with start in Hw2.
    rewrite (write_metadata_clears _ _ _ Hlen2) in Hw2.
    rewrite (write_metadata_clears _ _ _ Hlen) in Hw.
    congruence.
Qed.

(** The values of the specification's example: a disk at offset 8192 of
    65536 bytes. *)
Lemma C7_metadata_roundtrip_witness :
  let s := main Demo.hw 10 in
  pc s = PMetadata /\ wf s
  /\ diskoff s = 8192 /\ disksize s = 65536
  /\ (CART_IMAGE + diskoff s) mod 2^32 = 0xB0101000 + 8192
  /\ parse_record "n64cart.start=" (cstring_at (hdrbuf (step Demo.hw s)) 0)
     = Some ((CART_IMAGE + diskoff s) mod 2^32)
  /\ parse_record "n64cart.size=" (cstring_at (hdrbuf (step Demo.hw s)) 128)
     = Some (disksize s).
Proof.
  intros s.
  assert (Hwf : wf s).
  { unfold wf, U32.in_range, U32.modulus.
    replace (length (hdrbuf s)) with 256%nat by (vm_compute; reflexivity).
    replace (kernelsize s) with 5000 by (vm_compute; reflexivity).
    replace (disksize s) with 65536 by (vm_compute; reflexivity).
    replace (diskoff s) with 8192 by (vm_compute; reflexivity).
    repeat split; lia. }
  split; [vm_compute; reflexivity|]. split; [exact Hwf|].
  split; [vm_compute; reflexivity|]. split; [vm_compute; reflexivity|].
  split; [vm_compute; reflexivity|].
  destruct (C7_metadata_roundtrip Demo.hw s ltac:(vm_compute; reflexivity) Hwf)
    as (_ & _ & _ & _ & P1 & P2 & _).
  split; [exact P1 | exact P2].
Defined.

(** C10. The two records cannot meet and cannot leave the buffer. With
    its terminator the first takes at most 25 bytes from offset 0 and
    the second at most 24 bytes from offset 128; both writes stay inside
    the 256 bytes, and every byte outside the two records is zero after
    the block. *)
Theorem C10_records_disjoint (hw : platform) (s : state) :
  pc s = PMetadata -> wf s ->
  let buf := hdrbuf (step hw s) in
  let n1 := S (length (cstring_at buf 0)) in
  let n2 := S (length (cstring_at buf 128)) in
  pc (step hw s) = PTransfer
  /\ length buf = 256%nat
  /\ (n1 <= 25)%nat /\ (n2 <= 24)%nat
  /\ (0 + n1 <= 128)%nat /\ (128 + n2 <= 256)%nat
  /\ buf !! (n1 - 1)%nat = Some x00
  /\ buf !! (128 + n2 - 1)%nat = Some x00
  /\ (forall i : nat,
        (n1 <= i < 128)%nat \/ (128 + n2 <= i < 256)%nat -> buf !! i = Some x00).
Proof.
  intros Hpc Hwf buf n1 n2.
  destruct (metadata_step hw s Hpc Hwf) as (Hp & _ & Hl & L1 & L2 & C1 & C2 & H0).
  fold buf in Hl, C1, C2, H0.
  subst n1 n2. rewrite C1, C2.
  split; [exact Hp|]. split; [exact Hl|].
  split; [lia|]. split; [lia|]. split; [lia|]. split; [lia|].
  split; [apply H0; lia|]. split; [apply H0; lia|].
  intros i Hi. apply H0. lia.
Qed.

(** The largest values: both numbers take ten digits. *)
Lemma C10_records_disjoint_witness :
  let s := State PMetadata (fun _ => x00) (replicate 256 xff)
             1 4294967295 0x4FEFE000 0 0 [] in
  let buf := hdrbuf (step Demo.hw s) in
  pc s = PMetadata /\ wf s
  /\ length (cstring_at buf 0) = 24%nat
  /\ length (cstring_at buf 128) = 23%nat
  /\ buf !! (S (length (cstring_at buf 0)) - 1)%nat = Some x00
  /\ buf !! (128 + S (length (cstring_at buf 128)) - 1)%nat = Some x00.
Proof.
  intros s buf.
  assert (Hwf : wf s).
  { unfold wf, U32.in_range, U32.modulus. subst s. proj_simpl.
    rewrite length_replicate. repeat split; lia. }
  split; [reflexivity|]. split; [exact Hwf|].
  split; [vm_compute; reflexivity|]. split; [vm_compute; reflexivity|].
  destruct (C10_records_disjoint Demo.hw s eq_refl Hwf)
    as (_ & _ & _ & _ & _ & _ & T1 & T2 & _).
  split; [exact T1 | exact T2].
Defined.

(** C8. The last block turns the interrupts off and calls the entry
    point with [argc] the number of elements of [args], which is 4:
    ["hello"], the record at [hdrbuf], the record at [hdrbuf + 128] and
    ["root=/dev/n64cart"]. [envp] is a table with the terminating null
    alone, and the fourth argument is null. The records the two middle
    pointers refer to are left as the metadata block wrote them. *)
Theorem C8_call_convention (hw : platform) (s : state) :
  pc s = PTransfer ->
  pc (step hw s) = PKernel
  /\ trace (step hw s)
     = trace s ++ [EvDisableInterrupts; EvSetVIInterrupt 0 0;
                   EvCall (funcptr s) (Z.of_nat (length args)) args env Null]
  /\ length args = 4%nat
  /\ args !! 0%nat = Some (Literal "hello")
  /\ args !! 1%nat = Some (InHdrbuf 0)
  /\ args !! 2%nat = Some (InHdrbuf 128)
  /\ args !! 3%nat = Some (Literal "root=/dev/n64cart")
  /\ env = [Null]
  /\ hdrbuf (step hw s) = hdrbuf s.
Proof.
  intros Hpc. unfold step. rewrite Hpc. unfold do_transfer. proj_simpl.
  rewrite <- app_assoc. repeat split.
Qed.

(** The call the demonstration cartridge ends with. *)
Lemma C8_call_convention_witness :
  let s := main Demo.hw 11 in
  pc s = PTransfer
  /\ funcptr s = 0x80001000
  /\ pc (step Demo.hw s) = PKernel
  /\ trace (step Demo.hw s)
     = trace s ++ [EvDisableInterrupts; EvSetVIInterrupt 0 0;
                   EvCall (funcptr s) (Z.of_nat (length args)) args env Null].
Proof.
  intros s.
  split; [vm_compute; reflexivity|]. split; [vm_compute; reflexivity|].
  destruct (C8_call_convention Demo.hw s ltac:(vm_compute; reflexivity))
    as (Hp & Ht & _).
  split; [exact Hp | exact Ht].
Defined.

(** ** The whole boot *)


Section Whole.

Variable hw : platform.

Lemma main_S (n : nat) : main hw (S n) = step hw (main hw n).
Proof. unfold main. apply run_S. Qed.



End Whole.

(** ** The host tool *)

Module Size2binFacts.

Import Size2bin.

Lemma wrap_long_small (x : Z) : - 2^63 <= x < 2^63 -> wrap_long x = x.
Proof. intros H. unfold wrap_long. rewrite Z.mod_small by lia. lia. Qed.

Lemma testbit_mask8 (k i : Z) :
  0 <= k -> 0 <= i ->
  Z.testbit (Z.shiftl 255 k) i = (k <=? i) && (i <? k + 8).
Proof.
  intros Hk Hi. rewrite Z.shiftl_spec by lia.
  destruct (Z.leb_spec k i).
  - change 255 with (Z.ones 8). rewrite Z.testbit_ones_nonneg by lia.
    destruct (Z.ltb_spec (i - k) 8), (Z.ltb_spec i (k + 8)); try lia; reflexivity.
  - rewrite Z.testbit_neg_r by lia. reflexivity.
Qed.

(** Bit [i] of the swapped word is the bit of the same rank in the
    mirrored byte. *)
Lemma bswap_32_bits (x i : Z) :
  0 <= i ->
  Z.testbit (bswap_32 x) i =
    if i <? 8 then Z.testbit x (i + 24)
    else if i <? 16 then Z.testbit x (i + 8)
    else if i <? 24 then Z.testbit x (i - 8)
    else if i <? 32 then Z.testbit x (i - 24)
    else false.
Proof.
  intros Hi. unfold bswap_32.
  rewrite !Z.lor_spec, !Z.shiftr_spec, !Z.shiftl_spec by lia.
  rewrite !Z.land_spec.
  assert (M : forall k j, 0 <= k -> 0 <= j ->
                Z.testbit x j && Z.testbit (Z.shiftl 255 k) j
                = Z.testbit x j && ((k <=? j) && (j <? k + 8))).
  { intros k j Hk Hj. rewrite testbit_mask8 by lia. reflexivity. }
  assert (N : forall m j, j < 0 -> Z.testbit x j && Z.testbit m j = false).
  { intros m j Hj. rewrite (Z.testbit_neg_r x j) by lia. reflexivity. }
  assert (M0 : forall j, 0 <= j ->
                 Z.testbit x j && Z.testbit 255 j
                 = Z.testbit x j && ((0 <=? j) && (j <? 0 + 8)))
    by (intros j Hj; exact (M 0 j ltac:(lia) Hj)).
  change 0xff000000 with (Z.shiftl 255 24). change 0x00ff0000 with (Z.shiftl 255 16).
  change 0x0000ff00 with (Z.shiftl 255 8).
  rewrite (M 24 (i + 24)), (M 16 (i + 8)) by lia.
  destruct (Z_lt_ge_dec (i - 8) 0) as [H8|H8];
    [rewrite (N _ (i - 8)) by lia | rewrite (M 8 (i - 8)) by lia];
    (destruct (Z_lt_ge_dec (i - 24) 0) as [H24|H24];
     [rewrite (N _ (i - 24)) by lia | rewrite (M0 (i - 24)) by lia]);
    repeat match goal with
           | |- context [Z.ltb ?a ?b] => destruct (Z.ltb_spec a b); try lia
           | |- context [Z.leb ?a ?b] => destruct (Z.leb_spec a b); try lia
           end;
    cbn [andb orb];
    rewrite ?andb_true_r, ?andb_false_r, ?orb_false_r, ?orb_false_l; reflexivity.
Qed.

Lemma Z_to_byte_bits (a b : Z) :
  (forall i : Z, 0 <= i < 8 -> Z.testbit a i = Z.testbit b i) ->
  Z_to_byte a = Z_to_byte b.
Proof.
  intros H. rewrite <- (Z_to_byte_mod a), <- (Z_to_byte_mod b). f_equal.
  change 256 with (2^8). apply Z.bits_inj'. intros i Hi.
  rewrite !Z.testbit_mod_pow2 by lia.
  destruct (Z.ltb_spec i 8); [|reflexivity]. cbn [andb]. apply H. lia.
Qed.

Ltac byte_of_bswap :=
  apply Z_to_byte_bits; intros i Hi;
  rewrite ?Z.div_pow2_bits, bswap_32_bits by lia;
  repeat match goal with
         | |- context [Z.ltb ?a ?b] => destruct (Z.ltb_spec a b); try lia
         end; f_equal; lia.

(** The bytes of the swapped word are the bytes of the word in the
    opposite order. *)
Lemma bswap_32_bytes (x : Z) :
  Z_to_byte (bswap_32 x) = Z_to_byte (x / 2^24)
  /\ Z_to_byte (bswap_32 x / 2^8) = Z_to_byte (x / 2^16)
  /\ Z_to_byte (bswap_32 x / 2^16) = Z_to_byte (x / 2^8)
  /\ Z_to_byte (bswap_32 x / 2^24) = Z_to_byte x.
Proof. repeat split; byte_of_bswap. Qed.

(** Swapping the bytes of a value turns one byte order of its object
    representation into the other. *)
Lemma encode_le32_bswap (x : Z) : encode_le32 (bswap_32 x) = encode_be32 x.
Proof.
  destruct (bswap_32_bytes x) as (E0 & E1 & E2 & E3).
  unfold encode_le32, encode_be32. cbn [rev app].
  rewrite E0, E1, E2, E3. reflexivity.
Qed.

Lemma encode_be32_bswap (x : Z) : encode_be32 (bswap_32 x) = encode_le32 x.
Proof.
  destruct (bswap_32_bytes x) as (E0 & E1 & E2 & E3).
  unfold encode_le32, encode_be32. cbn [rev app].
  rewrite E0, E1, E2, E3. reflexivity.
Qed.

(** [(n + 4095) & ~4095] on a signed value that fits. *)
Lemma pad_4096 (n : Z) :
  0 <= n ->
  Z.land (n + 4095) (Z.lnot 4095) = 4096 * ((n + 4095) / 4096)
  /\ n <= Z.land (n + 4095) (Z.lnot 4095) < n + 4096.
Proof.
  intros Hn.
  assert (E : Z.land (n + 4095) (Z.lnot 4095) = 4096 * ((n + 4095) / 4096)).
  { change (Z.lnot 4095) with (Z.lnot (Z.ones 12)).
    rewrite <- Z.ldiff_land, Z.ldiff_ones_r by lia.
    rewrite Z.shiftl_mul_pow2, Z.shiftr_div_pow2 by lia. change (2^12) with 4096.
    lia. }
  rewrite E. split; [reflexivity|].
  pose proof (Z.div_mod (n + 4095) 4096 ltac:(lia)).
  pose proof (Z.mod_pos_bound (n + 4095) 4096 ltac:(lia)). lia.
Qed.

End Size2binFacts.

(** C9. For a file of [fileSize] bytes the tool prints
    [((fileSize + 4095) & ~4095) + 1048576] in decimal, the size padded
    to 4096 plus one mebibyte. Called with a second file name it leaves
    in that file exactly the four bytes of [bswap_32] of the size as a
    32-bit value; on a little-endian host these are the size most
    significant byte first, which is how the loader decodes its
    [kernelsize] word. *)
Theorem C9_size_tool (h : Size2bin.host) (argv : list string)
    (path : string) (content : list byte) :
  argv !! 1%nat = Some path ->
  Size2bin.files h !! path = Some content ->
  let fileSize := Z.of_nat (length content) in
  fileSize + 4095 + 1048576 < 2^63 ->
  let padded := Z.land (fileSize + 4095) (Z.lnot 4095) + 1048576 in
  let record := Size2bin.object_bytes h (Size2bin.bswap_32 (fileSize mod 2^32)) in
  padded = 4096 * ((fileSize + 4095) / 4096) + 1048576
  /\ atou (ltoa padded) = Some padded
  /\ (length argv <> 3%nat ->
      Size2bin.main h argv = Size2bin.Exit 0 (ltoa padded) (Size2bin.files h))
  /\ (forall dst : string,
        length argv = 3%nat -> argv !! 2%nat = Some dst ->
        Size2bin.can_create h dst = true ->
        Size2bin.main h argv
        = Size2bin.Exit 0 (ltoa padded) (<[dst := record]> (Size2bin.files h)))
  /\ length record = 4%nat
  /\ (Size2bin.little_endian h = true ->
      record = encode_be32 (fileSize mod 2^32)
      /\ decode_be record = fileSize mod 2^32)
  /\ (Size2bin.little_endian h = false ->
      record = encode_le32 (fileSize mod 2^32)).
Proof.
  intros Hpath Hfile fileSize Hfit padded record.
  assert (Hsz : 0 <= fileSize) by (unfold fileSize; lia).
  destruct (Size2binFacts.pad_4096 fileSize Hsz) as (Epad & Hpad0 & Hpad1).
  assert (Hargc : (2 <= length argv)%nat).
  { apply lookup_lt_Some in Hpath. lia. }
  assert (Hp0 : 0 <= padded < 2^63) by (unfold padded; lia).
  assert (Hmain : Size2bin.main h argv
                  = if Z.of_nat (length argv) =? 3
                    then match argv !! 2%nat with
                         | Some dst =>
                             if Size2bin.can_create h dst
                             then Size2bin.Exit 0 (ltoa padded)
                                    (<[dst := record]> (Size2bin.files h))
                             else Size2bin.Crash (Size2bin.files h)
                         | None => Size2bin.Crash (Size2bin.files h)
                         end
                    else Size2bin.Exit 0 (ltoa padded) (Size2bin.files h)).
  { unfold Size2bin.main.
    destruct (Z.ltb_spec (Z.of_nat (length argv)) 2); [lia|].
    rewrite Hpath, Hfile. fold fileSize.
    rewrite (Size2binFacts.wrap_long_small (fileSize + 4095)) by lia.
    change (1024 * 1024) with 1048576. fold padded.
    rewrite (Size2binFacts.wrap_long_small padded) by lia.
    reflexivity. }
  split; [unfold padded; rewrite Epad; reflexivity|].
  split.
  { unfold ltoa. destruct (Z.ltb_spec padded 0); [lia|].
    apply atou_utoa. change (10 ^ 20) with 100000000000000000000. lia. }
  split.
  { intros Hne. rewrite Hmain.
    destruct (Z.eqb_spec (Z.of_nat (length argv)) 3); [lia | reflexivity]. }
  split.
  { intros dst Hlen Hdst Hcan. rewrite Hmain, Hlen, Hdst, Hcan. reflexivity. }
  split.
  { unfold record, Size2bin.object_bytes.
    destruct (Size2bin.little_endian h); reflexivity. }
  split.
  - intros Hle. unfold record, Size2bin.object_bytes. rewrite Hle.
    rewrite Size2binFacts.encode_le32_bswap. split; [reflexivity|].
    rewrite decode_encode_be32. apply Z.mod_mod. lia.
  - intros Hbe. unfold record, Size2bin.object_bytes. rewrite Hbe.
    apply Size2binFacts.encode_be32_bswap.
Qed.

(** A kernel of 5000 bytes: the tool prints 1056768 and the size file
    holds [00 00 13 88]. *)
Lemma C9_size_tool_witness :
  let argv := ["size2bin"; "vmlinux"; "size.bin"]%string in
  argv !! 1%nat = Some "vmlinux"%string
  /\ Size2bin.files Size2bin.demo !! "vmlinux"%string = Some (replicate 5000 x90)
  /\ Z.of_nat (length (replicate 5000 x90)) + 4095 + 1048576 < 2^63
  /\ ltoa (Z.land (Z.of_nat (length (replicate 5000 x90)) + 4095) (Z.lnot 4095) + 1048576)
     = text "1056768"
  /\ Size2bin.object_bytes Size2bin.demo
       (Size2bin.bswap_32 (Z.of_nat (length (replicate 5000 x90)) mod 2^32))
     = [x00; x00; x13; x88]
  /\ Size2bin.main Size2bin.demo argv
     = Size2bin.Exit 0
         (ltoa (Z.land (Z.of_nat (length (replicate 5000 x90)) + 4095) (Z.lnot 4095)
                + 1048576))
         (<["size.bin"%string :=
              Size2bin.object_bytes Size2bin.demo
                (Size2bin.bswap_32 (Z.of_nat (length (replicate 5000 x90)) mod 2^32))]>
            (Size2bin.files Size2bin.demo)).
Proof.
  intros argv.
  assert (H1 : argv !! 1%nat = Some "vmlinux"%string) by reflexivity.
  assert (H2 : Size2bin.files Size2bin.demo !! "vmlinux"%string
               = Some (replicate 5000 x90)) by (vm_compute; reflexivity).
  assert (H3 : Z.of_nat (length (replicate 5000 x90)) + 4095 + 1048576 < 2^63)
    by (vm_compute; reflexivity).
  split; [exact H1|]. split; [exact H2|]. split; [exact H3|].
  split; [vm_compute; reflexivity|]. split; [vm_compute; reflexivity|].
  destruct (C9_size_tool Size2bin.demo argv "vmlinux" (replicate 5000 x90) H1 H2 H3)
    as (_ & _ & _ & Hw & _).
  exact (Hw "size.bin"%string eq_refl eq_refl eq_refl).
Defined.

(** * Further properties *)

(** ** The debug window *)

Lemma land_mul_pow2_small (m b k : Z) :
  0 <= k -> 0 <= b < 2^k -> Z.land (m * 2^k) b = 0.
Proof.
  intros Hk Hb. apply Z.bits_inj'. intros i Hi.
  rewrite Z.land_spec, Z.bits_0.
  destruct (Z.lt_ge_cases i k) as [Hlt|Hge].
  - rewrite Z.mul_pow2_bits_low by lia. reflexivity.
  - rewrite <- (Z.mod_small b (2^k)) by lia.
    rewrite Z.mod_pow2_bits_high by lia. apply andb_false_r.
Qed.

Lemma lor_mul_pow2_small (m b k : Z) :
  0 <= k -> 0 <= b < 2^k -> Z.lor (m * 2^k) b = m * 2^k + b.
Proof.
  intros Hk Hb. pose proof (land_mul_pow2_small m b k Hk Hb) as H.
  rewrite <- Z.lxor_lor by exact H. symmetry. apply Z.add_nocarry_lxor. exact H.
Qed.

(** The shifts and ors of the source build the big-endian word. *)
Lemma pack_word_decode (mem : Z -> byte) (p : Z) :
  pack_word mem p = decode_be [mem p; mem (p + 1); mem (p + 2); mem (p + 3)].
Proof.
  unfold pack_word. rewrite decode_be_4, !Z.shiftl_mul_pow2 by lia.
  pose proof (byte_to_Z_range (mem p)).
  pose proof (byte_to_Z_range (mem (p + 1))).
  pose proof (byte_to_Z_range (mem (p + 2))).
  pose proof (byte_to_Z_range (mem (p + 3))).
  change (2^0) with 1. rewrite Z.mul_1_r.
  replace (byte_to_Z (mem p) * 2^24) with ((byte_to_Z (mem p) * 2^8) * 2^16) by lia.
  replace (byte_to_Z (mem (p + 1)) * 2^16) with (byte_to_Z (mem (p + 1)) * 2^16) by lia.
  rewrite <- (Z.mul_assoc (byte_to_Z (mem p)) (2^8) (2^16)).
  change (2^8 * 2^16) with (2^24).
  rewrite (lor_mul_pow2_small (byte_to_Z (mem p)) _ 24) by lia.
  replace (byte_to_Z (mem p) * 2^24 + byte_to_Z (mem (p + 1)) * 2^16)
    with ((byte_to_Z (mem p) * 2^8 + byte_to_Z (mem (p + 1))) * 2^16) by lia.
  rewrite (lor_mul_pow2_small _ _ 16) by lia.
  replace ((byte_to_Z (mem p) * 2^8 + byte_to_Z (mem (p + 1))) * 2^16
           + byte_to_Z (mem (p + 2)) * 2^8)
    with (((byte_to_Z (mem p) * 2^8 + byte_to_Z (mem (p + 1))) * 2^8
           + byte_to_Z (mem (p + 2))) * 2^8) by lia.
  rewrite (lor_mul_pow2_small _ _ 8) by lia. lia.
Qed.

Lemma encode_decode_be32 (a b c d : byte) :
  encode_be32 (decode_be [a; b; c; d]) = [a; b; c; d].
Proof.
  unfold encode_be32. rewrite decode_be_4.
  pose proof (byte_to_Z_range a). pose proof (byte_to_Z_range b).
  pose proof (byte_to_Z_range c). pose proof (byte_to_Z_range d).
  set (w := byte_to_Z a * 2^24 + byte_to_Z b * 2^16 + byte_to_Z c * 2^8 + byte_to_Z d).
  assert (E0 : w / 2^24 = byte_to_Z a)
    by (subst w; symmetry; apply Z.div_unique with
          (byte_to_Z b * 2^16 + byte_to_Z c * 2^8 + byte_to_Z d); lia).
  assert (E1 : (w / 2^16) mod 256 = byte_to_Z b).
  { replace (w / 2^16) with (byte_to_Z a * 256 + byte_to_Z b)
      by (subst w; apply Z.div_unique with (byte_to_Z c * 2^8 + byte_to_Z d); lia).
    rewrite Z.add_comm, Z.mod_add by lia. apply Z.mod_small. lia. }
  assert (E2 : (w / 2^8) mod 256 = byte_to_Z c).
  { replace (w / 2^8) with ((byte_to_Z a * 2^16 + byte_to_Z b * 2^8) + byte_to_Z c)
      by (subst w; apply Z.div_unique with (byte_to_Z d); lia).
    replace (byte_to_Z a * 2^16 + byte_to_Z b * 2^8 + byte_to_Z c)
      with (byte_to_Z c + (byte_to_Z a * 2^8 + byte_to_Z b) * 256) by lia.
    rewrite Z.mod_add by lia. apply Z.mod_small. lia. }
  assert (E3 : w mod 256 = byte_to_Z d).
  { replace w with (byte_to_Z d
                    + (byte_to_Z a * 2^16 + byte_to_Z b * 2^8 + byte_to_Z c) * 256)
      by (subst w; lia).
    rewrite Z.mod_add by lia. apply Z.mod_small. lia. }
  rewrite <- (Z_to_byte_mod (w / 2^16)), <- (Z_to_byte_mod (w / 2^8)),
    <- (Z_to_byte_mod w).
  rewrite E0, E1, E2, E3, !Z_to_byte_to_Z. reflexivity.
Qed.

(** The inner loop from word [m] on, with [c] words to go. *)
Lemma copy_words_spec (mem : Z -> byte) (l : Z) (c : nat) :
  forall (fuel : nat) (data m : Z),
    0 <= m -> (c <= fuel)%nat ->
    l <= 4 * (m + Z.of_nat c) < l + 4 ->
    copy_words fuel mem data (4 * m) l
    = Some ((fun j => WriteBuffer (m + j) (pack_word mem (data + 4 * j)))
              <$> seqZ 0 (Z.of_nat c),
            data + 4 * Z.of_nat c).
Proof.
  induction c as [|c IH]; intros fuel data m Hm Hf Hl.
  - destruct fuel; cbn [copy_words];
      (destruct (Z.ltb_spec (4 * m) l); [lia|]);
      change (Z.of_nat 0) with 0; rewrite Z.mul_0_r, Z.add_0_r; reflexivity.
  - destruct fuel as [|fuel]; [lia|]. cbn [copy_words].
    destruct (Z.ltb_spec (4 * m) l); [|lia].
    replace (4 * m + 4) with (4 * (m + 1)) by lia.
    rewrite (IH fuel (data + 4) (m + 1)) by lia.
    replace (Z.of_nat (S c)) with (Z.succ (Z.of_nat c)) by lia.
    rewrite (seqZ_cons 0 (Z.succ (Z.of_nat c))) by lia. cbn [fmap list_fmap].
    replace (m + 0) with m by lia. replace (data + 4 * 0) with data by lia.
    rewrite (Z.mul_comm 4 m), Z.quot_mul by lia.
    f_equal. f_equal; [f_equal|lia].
    replace (Z.pred (Z.succ (Z.of_nat c))) with (Z.of_nat c) by lia.
    change (Z.succ 0) with (1 + 0).
    rewrite <- (fmap_add_seqZ 1 0), <- list_fmap_compose.
    apply list_fmap_ext. intros _ j _. cbn. f_equal; [lia|f_equal; lia].
Qed.

(** One turn of the outer loop on [l] bytes. *)
Lemma copy_words_chunk (mem : Z -> byte) (data l : Z) :
  0 < l ->
  copy_words (Z.to_nat ((l + 3) / 4)) mem data 0 l
  = Some (chunk_words mem data ((l + 3) / 4), data + 4 * ((l + 3) / 4)).
Proof.
  intros Hl.
  pose proof (Z.div_mod (l + 3) 4 ltac:(lia)).
  pose proof (Z.mod_pos_bound (l + 3) 4 ltac:(lia)).
  assert (Hc : 0 <= (l + 3) / 4) by (apply Z.div_pos; lia).
  change 0 with (4 * 0) at 1.
  rewrite (copy_words_spec mem l (Z.to_nat ((l + 3) / 4))) by lia.
  rewrite Z2Nat.id by lia. unfold chunk_words. f_equal. f_equal.
  apply list_fmap_ext. intros _ j _. cbn beta. rewrite pack_word_decode.
  replace (0 + j) with j by lia. reflexivity.
Qed.

Lemma flush_lengths_chunk (mem : Z -> byte) (data count : Z) :
  flush_lengths (chunk_words mem data count) = [].
Proof.
  unfold flush_lengths, chunk_words.
  induction (seqZ 0 count) as [|j r IH]; [reflexivity|exact IH].
Qed.

Lemma flush_lengths_turn (mem : Z -> byte) (data count l : Z) (rest : list mmio_write) :
  flush_lengths (chunk_words mem data count ++ WriteLen l :: rest)
  = l :: flush_lengths rest.
Proof.
  unfold flush_lengths at 1. rewrite omap_app. fold (flush_lengths (chunk_words mem data count)).
  rewrite flush_lengths_chunk. reflexivity.
Qed.

(** The outer loop ends within [fuel] turns when [len] is at most [fuel]
    full buffers, and hands over [len] bytes in all. *)
Lemma isviewer_write_loop_lengths (mem : Z -> byte) (fuel : nat) :
  forall data len : Z,
    len <= Z.of_nat fuel * ISVIEWER_BUFFER_LEN ->
    exists ws : list mmio_write,
      isviewer_write_loop fuel mem data len = Some ws
      /\ Forall (fun l => 0 < l <= ISVIEWER_BUFFER_LEN) (flush_lengths ws)
      /\ foldr Z.add 0 (flush_lengths ws) = Z.max len 0
      /\ Z.of_nat (length (flush_lengths ws))
         = (Z.max len 0 + ISVIEWER_BUFFER_LEN - 1) / ISVIEWER_BUFFER_LEN
      /\ (len <= 0 -> ws = []).
Proof.
  unfold ISVIEWER_BUFFER_LEN.
  induction fuel as [|fuel IH]; intros data len Hlen.
  - exists []. cbn [isviewer_write_loop].
    destruct (Z.ltb_spec 0 len); [lia|].
    rewrite Z.max_r by lia. repeat split; auto.
  - cbn [isviewer_write_loop].
    destruct (Z.ltb_spec 0 len) as [Hpos|Hneg].
    2:{ exists []. rewrite Z.max_r by lia. repeat split; auto. }
    unfold ISVIEWER_BUFFER_LEN.
    set (l := if len <? 65407 then len else 65407).
    assert (Hl : 0 < l <= 65407 /\ l <= len /\ (len <= 65407 -> l = len)
                 /\ (65407 <= len -> l = 65407)).
    { subst l. destruct (Z.ltb_spec len 65407); lia. }
    rewrite (copy_words_chunk mem data l) by lia.
    destruct (IH (data + 4 * ((l + 3) / 4)) (len - l)) as (rest & Hr & Hall & Hsum & Hcnt & Hnil).
    { subst l. destruct (Z.ltb_spec len 65407); lia. }
    rewrite Hr. eexists. split; [reflexivity|].
    rewrite flush_lengths_turn. rewrite Z.max_l by lia.
    split; [constructor; [lia|exact Hall]|].
    split; [cbn [foldr]; rewrite Hsum; lia|].
    split; [|intros; lia].
    cbn [length]. rewrite Nat2Z.inj_succ, Hcnt.
    destruct (Z.le_gt_cases len 65407) as [Hs|Hb].
    + replace l with len by lia. rewrite Z.sub_diag.
      change ((0 `max` 0 + 65407 - 1) `div` 65407) with 0.
      apply Z.div_unique with (len - 1); lia.
    + replace l with 65407 by lia. rewrite Z.max_l by lia.
      replace (len + 65407 - 1) with ((len - 65407 + 65407 - 1) + 1 * 65407) by lia.
      rewrite Z.div_add by lia. lia.
Qed.

Lemma isviewer_write_loop_nonpos (mem : Z -> byte) (fuel : nat) (data len : Z) :
  len <= 0 -> isviewer_write_loop fuel mem data len = Some [].
Proof.
  intros H. destruct fuel; cbn [isviewer_write_loop];
    (destruct (Z.ltb_spec 0 len); [lia | reflexivity]).
Qed.

Lemma isviewer_fuel_enough (len : Z) :
  len <= Z.of_nat (Z.to_nat (len / ISVIEWER_BUFFER_LEN + 1)) * ISVIEWER_BUFFER_LEN.
Proof.
  unfold ISVIEWER_BUFFER_LEN.
  destruct (Z.le_gt_cases len 0) as [Hn|Hp]; [lia|].
  pose proof (Z.div_mod len 65407 ltac:(lia)).
  pose proof (Z.mod_pos_bound len 65407 ltac:(lia)).
  assert (0 <= len / 65407) by (apply Z.div_pos; lia).
  rewrite Z2Nat.id by lia. lia.
Qed.

(** The function always returns, and what it hands to the device adds up
    to [len]. *)
Lemma isviewer_write_ends (mem : Z -> byte) (data len : Z) :
  exists ws : list mmio_write,
    isviewer_write mem data len = Some ws
    /\ Forall (fun l => 0 < l <= ISVIEWER_BUFFER_LEN) (flush_lengths ws)
    /\ foldr Z.add 0 (flush_lengths ws) = Z.max len 0
    /\ Z.of_nat (length (flush_lengths ws))
       = (Z.max len 0 + ISVIEWER_BUFFER_LEN - 1) / ISVIEWER_BUFFER_LEN
    /\ (len <= 0 -> ws = []).
Proof.
  unfold isviewer_write. apply isviewer_write_loop_lengths, isviewer_fuel_enough.
Qed.

(** A length that fits the device buffer takes one turn. *)
Lemma isviewer_write_single (mem : Z -> byte) (data len : Z) :
  0 < len <= ISVIEWER_BUFFER_LEN ->
  isviewer_write mem data len
  = Some (chunk_words mem data ((len + 3) / 4) ++ [WriteLen len]).
Proof.
  unfold ISVIEWER_BUFFER_LEN. intros Hlen. unfold isviewer_write.
  assert (Hf : exists f, Z.to_nat (len / ISVIEWER_BUFFER_LEN + 1) = S f).
  { unfold ISVIEWER_BUFFER_LEN.
    assert (0 <= len / 65407) by (apply Z.div_pos; lia).
    exists (Z.to_nat (len / 65407)). rewrite Z2Nat.inj_add by lia.
    change (Z.to_nat 1) with 1%nat. lia. }
  destruct Hf as [f ->]. cbn [isviewer_write_loop].
  destruct (Z.ltb_spec 0 len); [|lia].
  assert (El : (if len <? ISVIEWER_BUFFER_LEN then len else ISVIEWER_BUFFER_LEN) = len).
  { unfold ISVIEWER_BUFFER_LEN. destruct (Z.ltb_spec len 65407); lia. }
  rewrite El, copy_words_chunk by lia.
  rewrite Z.sub_diag, isviewer_write_loop_nonpos by lia. reflexivity.
Qed.

(** X1. [isviewer_write] returns for every [len]: the lengths it hands
    to the device are each between 1 and [ISVIEWER_BUFFER_LEN], there
    are as many as [len] needs buffers, and they add up to [len]; for
    [len <= 0] nothing is stored at all. *)
Theorem X1_isviewer_write_lengths (mem : Z -> byte) (data len : Z) :
  exists ws : list mmio_write,
    isviewer_write mem data len = Some ws
    /\ Forall (fun l => 0 < l <= ISVIEWER_BUFFER_LEN) (flush_lengths ws)
    /\ foldr Z.add 0 (flush_lengths ws) = Z.max len 0
    /\ Z.of_nat (length (flush_lengths ws))
       = (Z.max len 0 + ISVIEWER_BUFFER_LEN - 1) / ISVIEWER_BUFFER_LEN
    /\ (len <= 0 -> ws = []).
Proof. exact (isviewer_write_ends mem data len). Qed.

(** X2. For a length that fits the device buffer the function stores
    [ceil(len / 4)] words at indices [0, 1, ...] and then the length,
    once. Byte [i] of the data, for [i < len], is byte [i mod 4] (most
    significant first) of word [i / 4]. The last word may take up to
    three bytes from beyond [data + len]; nothing further on is read. *)
Theorem X2_isviewer_write_single (mem : Z -> byte) (data len : Z) :
  0 < len <= ISVIEWER_BUFFER_LEN ->
  let count := (len + 3) / 4 in
  isviewer_write mem data len
  = Some (chunk_words mem data count ++ [WriteLen len])
  /\ length (chunk_words mem data count) = Z.to_nat count
  /\ (forall i : Z, 0 <= i < len ->
        exists w : Z,
          chunk_words mem data count !! Z.to_nat (i / 4) = Some (WriteBuffer (i / 4) w)
          /\ Z_to_byte (w / 2 ^ (8 * (3 - i mod 4))) = mem (data + i))
  /\ (forall mem' : Z -> byte,
        (forall i : Z, 0 <= i < 4 * count -> mem' (data + i) = mem (data + i)) ->
        isviewer_write mem' data len = isviewer_write mem data len).
Proof.
  intros Hlen count.
  pose proof (Z.div_mod (len + 3) 4 ltac:(lia)) as Hdm.
  pose proof (Z.mod_pos_bound (len + 3) 4 ltac:(lia)) as Hmb.
  fold count in Hdm.
  assert (Hc : 0 <= count) by (apply Z.div_pos; lia).
  split; [apply isviewer_write_single; exact Hlen|].
  split.
  { unfold chunk_words. rewrite length_fmap, length_seqZ. reflexivity. }
  split.
  - intros i Hi.
    pose proof (Z.div_mod i 4 ltac:(lia)) as Hi4.
    pose proof (Z.mod_pos_bound i 4 ltac:(lia)) as Hr.
    assert (Hq : 0 <= i / 4) by (apply Z.div_pos; lia).
    eexists. split.
    + unfold chunk_words. rewrite list_lookup_fmap, lookup_seqZ_lt by lia.
      cbn [fmap option_fmap option_map]. rewrite Z2Nat.id by lia.
      rewrite Z.add_0_l. reflexivity.
    + set (j := i / 4) in *.
      pose proof (encode_decode_be32 (mem (data + 4 * j)) (mem (data + 4 * j + 1))
                    (mem (data + 4 * j + 2)) (mem (data + 4 * j + 3))) as E.
      unfold encode_be32 in E. injection E as E0 E1 E2 E3.
      assert (Hcase : i mod 4 = 0 \/ i mod 4 = 1 \/ i mod 4 = 2 \/ i mod 4 = 3) by lia.
      destruct Hcase as [R|[R|[R|R]]]; rewrite R.
      * change (8 * (3 - 0)) with 24. rewrite E0. f_equal. lia.
      * change (8 * (3 - 1)) with 16. rewrite E1. f_equal. lia.
      * change (8 * (3 - 2)) with 8. rewrite E2. f_equal. lia.
      * change (2 ^ (8 * (3 - 3))) with 1. rewrite Z.div_1_r, E3. f_equal. lia.
  - intros mem' Hag.
    rewrite !isviewer_write_single by exact Hlen. fold count.
    f_equal. f_equal. unfold chunk_words.
    apply list_fmap_ext. intros k j Hj.
    apply lookup_seqZ in Hj as [-> Hk].
    cbn beta. rewrite <- !Z.add_assoc.
    rewrite (Hag (4 * (0 + Z.of_nat k))), (Hag (4 * (0 + Z.of_nat k) + 1)),
      (Hag (4 * (0 + Z.of_nat k) + 2)), (Hag (4 * (0 + Z.of_nat k) + 3)) by lia.
    reflexivity.
Qed.

(** Six bytes at address 100 of a memory that holds its own addresses:
    two words and the length 6. *)
Lemma X2_isviewer_write_single_witness :
  let mem := fun a : Z => Z_to_byte a in
  0 < 6 <= ISVIEWER_BUFFER_LEN
  /\ isviewer_write mem 100 6
     = Some (chunk_words mem 100 ((6 + 3) / 4) ++ [WriteLen 6])
  /\ chunk_words mem 100 ((6 + 3) / 4)
     = [WriteBuffer 0 0x64656667; WriteBuffer 1 0x68696a6b].
Proof.
  intros mem.
  assert (H : 0 < 6 <= ISVIEWER_BUFFER_LEN) by (unfold ISVIEWER_BUFFER_LEN; lia).
  split; [exact H|].
  destruct (X2_isviewer_write_single mem 100 6 H) as (E & _).
  split; [exact E | vm_compute; reflexivity].
Defined.

(** X3. Beyond one device buffer the pointer and the length part ways:
    the first turn hands over [ISVIEWER_BUFFER_LEN = 65407] bytes but
    stores 16352 whole words, so the next turn starts at [data + 65408].
    The byte at [data + 65407] is stored as the last byte of the last
    word of the first turn, past the length handed over, and is in no
    later turn. *)
Theorem X3_isviewer_write_long (mem : Z -> byte) (data len : Z) :
  ISVIEWER_BUFFER_LEN < len ->
  exists rest : list mmio_write,
    isviewer_write mem (data + 65408) (len - 65407) = Some rest
    /\ isviewer_write mem data len
       = Some (chunk_words mem data 16352 ++ WriteLen 65407 :: rest).
Proof.
  unfold ISVIEWER_BUFFER_LEN. intros Hlen.
  destruct (isviewer_write_ends mem (data + 65408) (len - 65407)) as (rest & Hr & _).
  exists rest. split; [exact Hr|].
  unfold isviewer_write in *. unfold ISVIEWER_BUFFER_LEN in *.
  assert (Hq : len / 65407 = (len - 65407) / 65407 + 1).
  { replace len with ((len - 65407) + 1 * 65407) at 1 by lia.
    apply Z.div_add. lia. }
  assert (Hq0 : 0 <= (len - 65407) / 65407) by (apply Z.div_pos; lia).
  rewrite Hq. rewrite (Z2Nat.inj_add _ 1) by lia.
  change (Z.to_nat 1) with 1%nat. rewrite Nat.add_1_r.
  cbn [isviewer_write_loop].
  destruct (Z.ltb_spec 0 len); [|lia].
  unfold ISVIEWER_BUFFER_LEN.
  destruct (Z.ltb_spec len 65407); [lia|].
  rewrite copy_words_chunk by lia.
  change ((65407 + 3) / 4) with 16352. change (4 * 16352) with 65408.
  rewrite Hr. reflexivity.
Qed.

Lemma X3_isviewer_write_long_witness :
  let mem := fun a : Z => Z_to_byte a in
  ISVIEWER_BUFFER_LEN < 65410
  /\ exists rest : list mmio_write,
       isviewer_write mem (0 + 65408) (65410 - 65407) = Some rest
       /\ isviewer_write mem 0 65410
          = Some (chunk_words mem 0 16352 ++ WriteLen 65407 :: rest).
Proof.
  intros mem.
  assert (H : ISVIEWER_BUFFER_LEN < 65410) by (unfold ISVIEWER_BUFFER_LEN; lia).
  split; [exact H|]. exact (X3_isviewer_write_long mem 0 65410 H).
Defined.

(** ** The loader from start to call *)


Lemma wrap_add (a i : Z) : U32.wrap (U32.add a i) = U32.add a i.
Proof. apply wrap_wrap. Qed.

Section Pipeline.

Variable hw : platform.










End Pipeline.




(** ** The scan behind the header buffer *)

(** X5. The scan for a loadable program header has no bound. From
    [hdrbuf + e_phoff] it reads a word every 32 bytes, in [hdrbuf] and
    then in the memory behind it, and takes the first word that is 1 as
    the type of a loadable program header, however far from the 256
    bytes of the header that is; behind [hdrbuf] the words are those of
    memory, not of the cartridge. *)
Theorem X5_scan_past_hdrbuf (hw : platform) (s : state) (e_phoff : Z) (k : nat) :
  pc s = PLocate ->
  read_u32 (hdrbuf s) OFF_e_phoff = Some e_phoff ->
  e_phoff mod ALIGNOF_Elf32_Phdr = 0 ->
  (forall j : nat, (j < k)%nat ->
     exists t,
       fetch32 hw s (U32.add (hdrbuf_at hw)
                       (e_phoff + SIZEOF_Elf32_Phdr * Z.of_nat j)) = Some t
       /\ t <> PT_LOAD) ->
  fetch32 hw s (U32.add (hdrbuf_at hw)
                  (e_phoff + SIZEOF_Elf32_Phdr * Z.of_nat k)) = Some PT_LOAD ->
  (forall i : nat, (i <= k)%nat ->
     pc (run hw (S i) s) = PScan
     /\ phdr (run hw (S i) s) = e_phoff + SIZEOF_Elf32_Phdr * Z.of_nat i)
  /\ pc (run hw (S (S k)) s) = PLoad
  /\ phdr (run hw (S (S k)) s) = e_phoff + SIZEOF_Elf32_Phdr * Z.of_nat k
  /\ (forall o : Z,
        HDRBUF_SIZE <= o -> o + 4 <= U32.modulus ->
        hits_reserved hw (U32.add (hdrbuf_at hw) o) 4 = false ->
        fetch32 hw s (U32.add (hdrbuf_at hw) o)
        = Some (load32 (ram s) (U32.add (hdrbuf_at hw) o))).
Proof.
  intros Hpc Hoff Halign Hbefore Hhit.
  assert (Hs : step hw s = goto PScan (set_phdr e_phoff s)).
  { unfold step. rewrite Hpc. unfold do_locate. rewrite Hoff, Halign.
    reflexivity. }
  destruct (scan_reaches hw k (goto PScan (set_phdr e_phoff s)))
    as (S1 & S2 & S3 & _); proj_simpl.
  - reflexivity.
  - exact Hbefore.
  - exact Hhit.
  - split; [|split; [|split]].
    + intros i Hi. change (run hw (S i) s) with (run hw i (step hw s)).
      rewrite Hs. apply S1. exact Hi.
    + change (run hw (S (S k)) s) with (run hw (S k) (step hw s)).
      rewrite Hs. exact S2.
    + change (run hw (S (S k)) s) with (run hw (S k) (step hw s)).
      rewrite Hs. exact S3.
    + intros o Ho Hfit Hres. unfold fetch32. rewrite Hres, andb_false_r.
      f_equal. unfold load32.
      assert (Hv : forall i, 0 <= i < 4 ->
                     view hw s (U32.add (U32.add (hdrbuf_at hw) o) i)
                     = ram s (U32.add (U32.add (hdrbuf_at hw) o) i)).
      { intros i Hi. rewrite view_outside, wrap_add; [reflexivity|].
        rewrite add_add, sub_add_cancel, wrap_small;
          unfold U32.in_range, U32.modulus, HDRBUF_SIZE in *; lia. }
      assert (V0 : view hw s (U32.wrap (U32.add (hdrbuf_at hw) o))
                   = ram s (U32.wrap (U32.add (hdrbuf_at hw) o))).
      { rewrite view_outside, wrap_wrap; [reflexivity|].
        rewrite sub_wrap_l, sub_add_cancel, wrap_small;
          unfold U32.in_range, U32.modulus, HDRBUF_SIZE in *; lia. }
      rewrite V0, !Hv by lia. reflexivity.
Qed.

(** A table whose entries in [hdrbuf] are not loadable, and a word 1 in
    memory 340 bytes from the start of [hdrbuf]: the scan takes it for
    entry 9 and the loader goes on to load what the 32 bytes there
    describe. *)
Lemma X5_scan_past_hdrbuf_witness :
  pc (main Cases.hw_behind 5) = PLocate
  /\ read_u32 (hdrbuf (main Cases.hw_behind 5)) OFF_e_phoff = Some 52
  /\ 52 mod ALIGNOF_Elf32_Phdr = 0
  /\ fetch32 Cases.hw_behind (main Cases.hw_behind 5)
       (U32.add (hdrbuf_at Cases.hw_behind) (52 + SIZEOF_Elf32_Phdr * Z.of_nat 9))
     = Some PT_LOAD
  /\ pc (run Cases.hw_behind 11 (main Cases.hw_behind 5)) = PLoad
  /\ phdr (run Cases.hw_behind 11 (main Cases.hw_behind 5))
     = 52 + SIZEOF_Elf32_Phdr * Z.of_nat 9.
Proof.
  assert (Hpc : pc (main Cases.hw_behind 5) = PLocate) by (vm_compute; reflexivity).
  assert (Hoff : read_u32 (hdrbuf (main Cases.hw_behind 5)) OFF_e_phoff = Some 52)
    by (vm_compute; reflexivity).
  assert (Hhit : fetch32 Cases.hw_behind (main Cases.hw_behind 5)
                   (U32.add (hdrbuf_at Cases.hw_behind)
                      (52 + SIZEOF_Elf32_Phdr * Z.of_nat 9)) = Some PT_LOAD)
    by (vm_compute; reflexivity).
  split; [exact Hpc|]. split; [exact Hoff|]. split; [reflexivity|].
  split; [exact Hhit|].
  destruct (X5_scan_past_hdrbuf Cases.hw_behind (main Cases.hw_behind 5) 52 9
              Hpc Hoff eq_refl) as (_ & H2 & H3 & _).
  - intros j Hj.
    do 9 (destruct j as [|j];
          [eexists; split; [vm_compute; reflexivity | discriminate]|]).
    lia.
  - exact Hhit.
  - split; assumption.
Defined.

(** ** What the trace of a boot looks like *)

Lemma cache_paired_app (l1 l2 : list event) :
  cache_paired l1 -> cache_paired l2 -> cache_paired (l1 ++ l2).
Proof.
  intros H1 H2. induction H1 as [|e t He Ht IH|c tg src len t Hc Ht IH
                                 |c tg src len t Hc Ht IH]; cbn [app].
  - exact H2.
  - apply cache_paired_other; assumption.
  - apply cache_paired_before; assumption.
  - apply cache_paired_after; assumption.
Qed.

Ltac cache_paired_list :=
  cbn [app];
  repeat first
    [ apply cache_paired_nil
    | apply cache_paired_before;
      [eexists; first [left; reflexivity | right; reflexivity]|]
    | apply cache_paired_after;
      [eexists; first [left; reflexivity | right; reflexivity]|]
    | apply cache_paired_other; [reflexivity|] ].

Lemma phase_eq_dec_kernel (p : phase) : {p = PKernel} + {p <> PKernel}.
Proof. destruct p; (left; reflexivity) || (right; discriminate). Qed.

Lemma phase_eq_dec_load (p : phase) : {p = PLoad} + {p <> PLoad}.
Proof. destruct p; (left; reflexivity) || (right; discriminate). Qed.

Section Trace.

Variable hw : platform.

(** What a block other than the load block adds to the trace has its
    transfers paired. *)
Lemma step_cache_paired (s : state) :
  pc s <> PLoad ->
  exists evs : list event,
    trace (step hw s) = trace s ++ evs /\ cache_paired evs.
Proof.
  intros Hn. unfold step. destruct (pc s) eqn:Hpc; try congruence;
    unfold_blocks; repeat case_match; proj_simpl;
    first [ exists []; split; [rewrite app_nil_r; reflexivity | constructor]
          | eexists; split;
            [rewrite <- ?app_assoc; reflexivity | cache_paired_list] ].
Qed.

(** So has what the load block adds, when the transfer spares the
    [p_paddr] of the program header, which is read again. *)
Lemma load_cache_paired (s : state) (pa off fs ms : Z) :
  pc s = PLoad -> segment_at hw s pa off fs ms ->
  spares_fields hw s 4 pa (U32.land (U32.add fs 1) (U32.lnot 1)) ->
  exists evs : list event,
    trace (step hw s) = trace s ++ evs /\ cache_paired evs.
Proof.
  intros Hpc Hseg Hsp.
  destruct (hits_reserved hw pa (U32.land (U32.add fs 1) (U32.lnot 1))) eqn:Hr.
  - destruct Hseg as (Hpa & Hoff & Hfs & _).
    unfold step. rewrite Hpc. unfold do_load. rewrite Hpa, Hoff, Hfs.
    cbn zeta. rewrite Hr. unfold undefined. proj_simpl.
    eexists. split; [reflexivity | cache_paired_list].
  - destruct (load_trace_dest hw s pa off fs ms Hpc Hseg Hr Hsp) as (n & ->).
    eexists. split; [reflexivity | cache_paired_list].
Qed.

Lemma main_cache_paired (n : nat) :
  (forall m : nat, (m < n)%nat -> pc (main hw m) = PLoad ->
     exists pa off fs ms : Z,
       segment_at hw (main hw m) pa off fs ms
       /\ spares_fields hw (main hw m) 4 pa
            (U32.land (U32.add fs 1) (U32.lnot 1))) ->
  cache_paired (trace (main hw n)).
Proof.
  induction n as [|n IH]; intros H; [apply cache_paired_nil|].
  rewrite main_S.
  assert (Hp : cache_paired (trace (main hw n))) by (apply IH; intros; apply H; [lia | assumption]).
  specialize (H n ltac:(lia)). revert H Hp. generalize (main hw n). intros s H Hp.
  destruct (phase_eq_dec_load (pc s)) as [E|E].
  - destruct (H E) as (pa & off & fs & ms & Hseg & Hsp).
    destruct (load_cache_paired s pa off fs ms E Hseg Hsp) as (evs & -> & He).
    apply cache_paired_app; assumption.
  - destruct (step_cache_paired s E) as (evs & -> & He).
    apply cache_paired_app; assumption.
Qed.

Lemma run_trace_extends (n : nat) (s : state) :
  exists evs, trace (run hw n s) = trace s ++ evs.
Proof.
  revert s. induction n as [|n IH]; intros s.
  - exists []. rewrite app_nil_r. reflexivity.
  - cbn [run]. destruct (IH (step hw s)) as (e2 & ->).
    destruct (step_trace_extends hw s) as (e1 & ->).
    exists (e1 ++ e2). rewrite app_assoc. reflexivity.
Qed.

(** The transfers of the first two blocks are those of the size words. *)
Lemma main_2_transfers :
  List.filter is_dma (trace (main hw 2))
  = [EvDmaRead TKernelsize (U32.sub CART_IMAGE 4) 4;
     EvDmaRead TDisksize (U32.sub CART_IMAGE 8) 4].
Proof.
  unfold main. cbn [run]. unfold step at 2. unfold boot at 1. proj_simpl.
  unfold do_init. destruct (isviewer hw); proj_simpl;
    unfold step; proj_simpl; unfold do_read_sizes; proj_simpl; reflexivity.
Qed.

(** With a kernel configured the next one is that of the header. *)
Lemma main_4_transfers :
  dma_u32 hw (U32.sub CART_IMAGE 4) <> 0 ->
  List.filter is_dma (trace (main hw 4))
  = [EvDmaRead TKernelsize (U32.sub CART_IMAGE 4) 4;
     EvDmaRead TDisksize (U32.sub CART_IMAGE 8) 4;
     EvDmaRead THdrbuf CART_IMAGE 256].
Proof.
  intros Hk.
  assert (H3 : main hw 3 = goto PReadHeader (main hw 2)).
  { rewrite main_3. unfold do_check_kernel.
    destruct (main_2 hw) as (_ & -> & _).
    destruct (Z.eqb_spec (dma_u32 hw (U32.sub CART_IMAGE 4)) 0); [contradiction|].
    reflexivity. }
  rewrite (main_S hw 3), H3. pose proof main_2_transfers as H2.
  revert H2. generalize (main hw 2). intros s H2.
  unfold step. proj_simpl. unfold do_read_header. proj_simpl.
  rewrite <- !app_assoc, List.filter_app, H2. reflexivity.
Qed.

Lemma main_transfers_from (k n : nat) (l : list event) :
  (k <= n)%nat -> List.filter is_dma (trace (main hw k)) = l ->
  exists rest : list event, List.filter is_dma (trace (main hw n)) = l ++ rest.
Proof.
  intros Hn Hl. replace n with (k + (n - k))%nat by lia. rewrite main_add.
  destruct (run_trace_extends (n - k) (main hw k)) as (evs & ->).
  rewrite List.filter_app, Hl. eexists. reflexivity.
Qed.

(** The block that calls is the transfer block. *)
Lemma step_handed_over (s : state) :
  pc s <> PKernel ->
  forallb (fun e => negb (is_call e)) (trace s) = true ->
  pc (step hw s) = PKernel -> handed_over (step hw s).
Proof.
  intros Hn Hf. unfold handed_over, step.
  destruct (pc s) eqn:Hpc; try congruence;
    try (unfold_blocks; repeat case_match; proj_simpl; rewrite ?Hpc; discriminate).
  intros _. unfold do_transfer. proj_simpl. exists (trace s).
  rewrite <- app_assoc. split; [reflexivity | exact Hf].
Qed.

Lemma run_handed_over (n : nat) (s : state) :
  pc s <> PKernel ->
  forallb (fun e => negb (is_call e)) (trace s) = true ->
  pc (run hw n s) = PKernel -> handed_over (run hw n s).
Proof.
  intros Hn Hf. induction n as [|n IH]; [cbn [run]; congruence|].
  rewrite run_S. intros Hk.
  destruct (phase_eq_dec_kernel (pc (run hw n s))) as [E|E].
  - assert (Hs : step hw (run hw n s) = run hw n s)
      by (unfold step; rewrite E; reflexivity).
    rewrite Hs. apply IH, E.
  - apply step_handed_over; [exact E | | exact Hk].
    apply run_no_call; assumption.
Qed.

End Trace.

(** X7. Every transfer from the cartridge the loader asks for, of the
    two size words, of the header and of the segment, comes with a
    cache operation on its destination, issued right before or right
    after it. For the size words and the header this is so in every
    boot; for the segment it is so when the transfer spares the field
    [p_paddr] of the program header, since the cache operation takes its
    destination from [phdr->p_paddr] as read after the transfer. The
    first two transfers of every boot are those of the size words, and
    with a kernel configured the third is that of the header. *)
Theorem X7_transfers_cache_paired (hw : platform) (n : nat) :
  (forall m : nat, (m < n)%nat -> pc (main hw m) = PLoad ->
     exists pa off fs ms : Z,
       segment_at hw (main hw m) pa off fs ms
       /\ spares_fields hw (main hw m) 4 pa
            (U32.land (U32.add fs 1) (U32.lnot 1))) ->
  cache_paired (trace (main hw n))
  /\ ((2 <= n)%nat ->
      exists rest : list event,
        List.filter is_dma (trace (main hw n))
        = EvDmaRead TKernelsize (U32.sub CART_IMAGE 4) 4
          :: EvDmaRead TDisksize (U32.sub CART_IMAGE 8) 4 :: rest)
  /\ ((4 <= n)%nat -> dma_u32 hw (U32.sub CART_IMAGE 4) <> 0 ->
      exists rest : list event,
        List.filter is_dma (trace (main hw n))
        = EvDmaRead TKernelsize (U32.sub CART_IMAGE 4) 4
          :: EvDmaRead TDisksize (U32.sub CART_IMAGE 8) 4
          :: EvDmaRead THdrbuf CART_IMAGE 256 :: rest).
Proof.
  intros H. split; [apply main_cache_paired; exact H|]. split.
  - intros Hn.
    destruct (main_transfers_from hw 2 n _ Hn (main_2_transfers hw)) as (rest & E).
    exists rest. exact E.
  - intros Hn Hk.
    destruct (main_transfers_from hw 4 n _ Hn (main_4_transfers hw Hk)) as (rest & E).
    exists rest. exact E.
Qed.

(** The demonstration cartridge, whose segment is loaded far from the
    header. *)
Lemma X7_transfers_cache_paired_witness :
  pc (main Demo.hw 8) = PLoad
  /\ segment_at Demo.hw (main Demo.hw 8) 0x80001000 0x1000 5 16
  /\ spares_fields Demo.hw (main Demo.hw 8) 4 0x80001000
       (U32.land (U32.add 5 1) (U32.lnot 1))
  /\ cache_paired (trace (main Demo.hw 12))
  /\ List.filter is_dma (trace (main Demo.hw 12))
     = [EvDmaRead TKernelsize (U32.sub CART_IMAGE 4) 4;
        EvDmaRead TDisksize (U32.sub CART_IMAGE 8) 4;
        EvDmaRead THdrbuf CART_IMAGE 256;
        EvDmaRead (TRam 0x80001000) 0xB0102000 6].
Proof.
  assert (Hpc : pc (main Demo.hw 8) = PLoad) by (vm_compute; reflexivity).
  assert (Hseg : segment_at Demo.hw (main Demo.hw 8) 0x80001000 0x1000 5 16)
    by (vm_compute; repeat split).
  assert (Hs : spares_fields Demo.hw (main Demo.hw 8) 4 0x80001000
                 (U32.land (U32.add 5 1) (U32.lnot 1)))
    by (vm_compute; reflexivity).
  split; [exact Hpc|]. split; [exact Hseg|]. split; [exact Hs|].
  split; [|vm_compute; reflexivity].
  apply (X7_transfers_cache_paired Demo.hw 12).
  intros m Hm Hload.
  assert (Hm8 : m = 8%nat).
  { do 12 (destruct m as [|m]; [try reflexivity; vm_compute in Hload; discriminate Hload|]).
    lia. }
  subst m. exists 0x80001000, 0x1000, 5, 16. split; [exact Hseg | exact Hs].
Defined.

(** X8. The loader has handed over exactly when its trace ends with the
    interrupts being turned off and the call of the entry point it
    stored, with four arguments; no call comes before that one, and a
    loader that has not handed over has made no call. *)
Theorem X8_one_call (hw : platform) (n : nat) :
  (pc (main hw n) = PKernel -> handed_over (main hw n))
  /\ (pc (main hw n) <> PKernel ->
      forallb (fun e => negb (is_call e)) (trace (main hw n)) = true).
Proof.
  split.
  - intros Hk. unfold main in *.
    apply run_handed_over; [discriminate | reflexivity | exact Hk].
  - apply main_no_call.
Qed.

(** The demonstration cartridge after its 12 blocks, and before. *)
Lemma X8_one_call_witness :
  pc (main Demo.hw 12) = PKernel
  /\ handed_over (main Demo.hw 12)
  /\ pc (main Demo.hw 11) <> PKernel
  /\ forallb (fun e => negb (is_call e)) (trace (main Demo.hw 11)) = true.
Proof.
  assert (H12 : pc (main Demo.hw 12) = PKernel) by (vm_compute; reflexivity).
  assert (H11 : pc (main Demo.hw 11) <> PKernel) by (vm_compute; discriminate).
  split; [exact H12|].
  split; [exact (proj1 (X8_one_call Demo.hw 12) H12)|].
  split; [exact H11|].
  exact (proj2 (X8_one_call Demo.hw 11) H11).
Defined.

(** ** The debug window and the boot *)

Section Isviewer.

Variable hw : platform.
Variable b : bool.

Lemma step_with_isviewer (s1 s2 : state) :
  machine s1 = machine s2 ->
  List.filter (fun e => negb (is_detected e)) (trace s1)
  = List.filter (fun e => negb (is_detected e)) (trace s2) ->
  machine (step (with_isviewer b hw) s1) = machine (step hw s2)
  /\ List.filter (fun e => negb (is_detected e))
       (trace (step (with_isviewer b hw) s1))
     = List.filter (fun e => negb (is_detected e)) (trace (step hw s2)).
Proof.
  destruct s1 as [p1 r1 h1 k1 d1 o1 q1 f1 t1], s2 as [p2 r2 h2 k2 d2 o2 q2 f2 t2].
  unfold machine. proj_simpl. intros [= -> -> -> -> -> -> -> ->] Ht.
  unfold step; proj_simpl. destruct p2; unfold_blocks;
    unfold fetch32, phdr_field, install, view, hits_reserved, dma_read;
    proj_simpl; cbn [with_isviewer bootcic isviewer hdrbuf_at reserved cart];
    repeat case_match; proj_simpl;
    rewrite ?List.filter_app, ?Ht; cbn [List.filter is_detected negb];
    rewrite ?app_nil_r; split; reflexivity.
Qed.

Lemma run_with_isviewer (n : nat) :
  forall s1 s2 : state,
    machine s1 = machine s2 ->
    List.filter (fun e => negb (is_detected e)) (trace s1)
    = List.filter (fun e => negb (is_detected e)) (trace s2) ->
    machine (run (with_isviewer b hw) n s1) = machine (run hw n s2)
    /\ List.filter (fun e => negb (is_detected e))
         (trace (run (with_isviewer b hw) n s1))
       = List.filter (fun e => negb (is_detected e)) (trace (run hw n s2)).
Proof.
  induction n as [|n IH]; intros s1 s2 Hm Ht; [auto|].
  cbn [run]. destruct (step_with_isviewer s1 s2 Hm Ht) as (Hm' & Ht').
  apply IH; assumption.
Qed.

End Isviewer.

(** X9. Whether the probe finds a debug window or not changes one thing:
    the line that reports it. The loader's memory, buffer, sizes, entry
    point and position are the same at every step, and so is every
    other event of the trace. *)
Theorem X9_isviewer_only_logs (hw : platform) (b : bool) (n : nat) :
  machine (main (with_isviewer b hw) n) = machine (main hw n)
  /\ List.filter (fun e => negb (is_detected e))
       (trace (main (with_isviewer b hw) n))
     = List.filter (fun e => negb (is_detected e)) (trace (main hw n)).
Proof.
  unfold main. apply run_with_isviewer; reflexivity.
Qed.

(** ** The size word, from the host tool to the loader *)

(** X10. [diskoff] at the edges of the rounding. It is [kernelsize]
    itself exactly for the multiples of 4096. For a [kernelsize] above
    [2^32 - 4096] the sum wraps and [diskoff] is 0; these are the only
    sizes for which the disk image is placed before the end of the
    kernel. *)
Theorem X10_diskoff_edges (hw : platform) (n : nat) :
  (2 <= n)%nat ->
  let k := kernelsize (main hw n) in
  let d := diskoff (main hw n) in
  (d = k <-> k mod 4096 = 0)
  /\ (2^32 - 4096 < k -> d = 0)
  /\ (d < k <-> 2^32 - 4096 < k).
Proof.
  intros Hn k d.
  destruct (main_sizes hw n Hn) as (Ek & _ & Ed).
  assert (Hr : U32.in_range k) by (subst k; rewrite Ek; apply dma_u32_range).
  destruct (round_up_pow2 k 12 ltac:(lia) Hr) as (R1 & R2 & R3).
  change (2^12 - 1) with 4095 in *. change (2^12) with 4096 in *.
  fold k in Ed. fold d in Ed. rewrite <- Ed in R1, R2, R3.
  clearbody k d. clear Ek Ed. unfold U32.in_range, U32.modulus in *.
  assert (Hbig : 2^32 - 4096 < k -> d = 0).
  { intros Hb. rewrite R1.
    assert (E : (k + 4095) / 4096 = 2^20).
    { symmetry. apply (Z.div_unique _ _ _ (k + 4095 - 2^32)); lia. }
    rewrite E. reflexivity. }
  split; [|split; [exact Hbig|]].
  - split.
    + intros E. rewrite <- E. exact R2.
    + intros Hm. destruct (Z_lt_ge_dec (k + 4095) (2^32)) as [Hs|Hs].
      * specialize (R3 Hs).
        pose proof (Z.div_mod k 4096 ltac:(lia)) as Hk.
        pose proof (Z.div_mod d 4096 ltac:(lia)) as Hd.
        rewrite Hm in Hk. rewrite R2 in Hd. lia.
      * exfalso.
        pose proof (Z.div_mod k 4096 ltac:(lia)) as Hk.
        rewrite Hm in Hk. lia.
  - split.
    + intros Hlt. destruct (Z_lt_ge_dec (k + 4095) (2^32)) as [Hs|Hs]; [|lia].
      specialize (R3 Hs). lia.
    + intros Hb. rewrite (Hbig Hb). lia.
Qed.

(** A kernel of 8192 bytes has the disk right behind it; one of
    [2^32 - 1] bytes has it at 0. *)
Lemma X10_diskoff_edges_witness :
  (2 <= 12)%nat
  /\ kernelsize (main Cases.hw_aligned 12) mod 4096 = 0
  /\ diskoff (main Cases.hw_aligned 12) = kernelsize (main Cases.hw_aligned 12)
  /\ 2^32 - 4096 < kernelsize (main Cases.hw_huge 12)
  /\ diskoff (main Cases.hw_huge 12) = 0.
Proof.
  assert (Hn : (2 <= 12)%nat) by lia.
  assert (Ha : kernelsize (main Cases.hw_aligned 12) mod 4096 = 0)
    by (vm_compute; reflexivity).
  assert (Hh : 2^32 - 4096 < kernelsize (main Cases.hw_huge 12))
    by (vm_compute; reflexivity).
  split; [exact Hn|]. split; [exact Ha|].
  split; [exact (proj2 (proj1 (X10_diskoff_edges Cases.hw_aligned 12 Hn)) Ha)|].
  split; [exact Hh|].
  exact (proj1 (proj2 (X10_diskoff_edges Cases.hw_huge 12 Hn)) Hh).
Defined.

(** X11. The size file the host tool writes is the word the loader
    reads. Run as [size2bin file size.bin] on a little-endian host, the
    tool leaves four bytes which, placed on the cartridge right before
    the image, give the loader [kernelsize = fileSize mod 2^32]; and
    for a file below 4 GiB the number the tool prints is the loader's
    [diskoff] plus one mebibyte. On a big-endian host the loader would
    read the size with its bytes in reverse order. *)
Theorem X11_size_word_read_back (h : Size2bin.host) (tool path dst : string)
    (content : list byte) (hw : platform) (n : nat) :
  let fileSize := Z.of_nat (length content) in
  Size2bin.files h !! path = Some content ->
  Size2bin.can_create h dst = true ->
  (2 <= n)%nat ->
  let record :=
    Size2bin.object_bytes h (Size2bin.bswap_32 (fileSize mod 2^32)) in
  exists out : list byte,
    Size2bin.main h [tool; path; dst]
    = Size2bin.Exit 0 out (<[dst := record]> (Size2bin.files h))
    /\ (dma_bytes hw (U32.sub CART_IMAGE 4) 4 = record ->
        (Size2bin.little_endian h = true ->
         kernelsize (main hw n) = fileSize mod 2^32
         /\ (fileSize + 4095 < 2^32 ->
             atou out = Some (diskoff (main hw n) + 1048576)))
        /\ (Size2bin.little_endian h = false ->
            kernelsize (main hw n) = decode_le (encode_be32 (fileSize mod 2^32)))).
Proof.
  intros fileSize Hfile Hcan Hn record.
  assert (Hsz : 0 <= fileSize) by (unfold fileSize; lia).
  eexists. split.
  { unfold Size2bin.main. cbn [length].
    change (Z.of_nat 3 <? 2) with false. change (Z.of_nat 3 =? 3) with true.
    cbn [lookup list_lookup]. rewrite Hfile. cbn iota. rewrite Hcan.
    reflexivity. }
  fold fileSize. intros Hrec. subst record.
  destruct (main_sizes hw n Hn) as (Ek & _ & Ed).
  assert (Hk : kernelsize (main hw n)
               = decode_be (Size2bin.object_bytes h
                              (Size2bin.bswap_32 (U32.wrap fileSize)))).
  { rewrite Ek. unfold dma_u32. rewrite Hrec. reflexivity. }
  clear Ek Hrec. revert Hk Ed. generalize (main hw n). intros s Hk Ed.
  unfold Size2bin.object_bytes in Hk. split.
  - intros Hle. rewrite Hle in Hk.
    rewrite Size2binFacts.encode_le32_bswap, decode_encode_be32 in Hk.
    unfold U32.wrap, U32.modulus in Hk. rewrite Z.mod_mod in Hk by lia.
    split; [exact Hk|]. intros Hfit.
    rewrite Z.mod_small in Hk by lia.
    destruct (Size2binFacts.pad_4096 fileSize Hsz) as (Epad & Hpad0 & Hpad1).
    assert (Hr : U32.in_range fileSize) by (unfold U32.in_range, U32.modulus; lia).
    destruct (round_up_pow2 fileSize 12 ltac:(lia) Hr) as (R1 & _ & R3).
    change (2^12 - 1) with 4095 in *. change (2^12) with 4096 in *.
    rewrite Hk in Ed. rewrite <- Ed in R1, R3.
    specialize (R3 ltac:(unfold U32.modulus; lia)).
    assert (Hd : diskoff s = Z.land (fileSize + 4095) (Z.lnot 4095)).
    { rewrite Epad, R1. apply wrap_small. rewrite <- Epad.
      unfold U32.in_range, U32.modulus. lia. }
    rewrite (Size2binFacts.wrap_long_small (fileSize + 4095)) by lia.
    change (1024 * 1024) with 1048576. rewrite <- Hd.
    rewrite Size2binFacts.wrap_long_small by lia.
    unfold ltoa. destruct (Z.ltb_spec (diskoff s + 1048576) 0); [lia|].
    apply atou_utoa. change (10 ^ 20) with 100000000000000000000. lia.
  - intros Hbe. rewrite Hbe in Hk.
    rewrite Size2binFacts.encode_be32_bswap in Hk. exact Hk.
Qed.

(** The 5000-byte kernel of the demonstrations: the tool's four bytes
    on the cartridge make the loader read 5000, and the tool prints
    [8192 + 1048576]. *)
Lemma X11_size_word_read_back_witness :
  let hw := Cases.hw_with_record [x00; x00; x13; x88] in
  let record :=
    Size2bin.object_bytes Size2bin.demo
      (Size2bin.bswap_32 (Z.of_nat (length (replicate 5000 x90)) mod 2^32)) in
  Size2bin.files Size2bin.demo !! "vmlinux"%string = Some (replicate 5000 x90)
  /\ Size2bin.can_create Size2bin.demo "size.bin"%string = true
  /\ (2 <= 12)%nat
  /\ record = [x00; x00; x13; x88]
  /\ dma_bytes hw (U32.sub CART_IMAGE 4) 4 = record
  /\ exists out : list byte,
       Size2bin.main Size2bin.demo ["size2bin"; "vmlinux"; "size.bin"]%string
       = Size2bin.Exit 0 out
           (<["size.bin"%string := record]> (Size2bin.files Size2bin.demo))
       /\ kernelsize (main hw 12) = Z.of_nat (length (replicate 5000 x90)) mod 2^32
       /\ atou out = Some (diskoff (main hw 12) + 1048576).
Proof.
  intros hw record.
  assert (H1 : Size2bin.files Size2bin.demo !! "vmlinux"%string
               = Some (replicate 5000 x90)) by (vm_compute; reflexivity).
  assert (H2 : Size2bin.can_create Size2bin.demo "size.bin"%string = true)
    by reflexivity.
  assert (H3 : (2 <= 12)%nat) by lia.
  assert (H4 : dma_bytes hw (U32.sub CART_IMAGE 4) 4 = record)
    by (vm_compute; reflexivity).
  split; [exact H1|]. split; [exact H2|]. split; [exact H3|].
  split; [vm_compute; reflexivity|]. split; [exact H4|].
  destruct (X11_size_word_read_back Size2bin.demo "size2bin" "vmlinux" "size.bin"
              (replicate 5000 x90) hw 12 H1 H2 H3)
    as (out & Hmain & Hload).
  exists out. split; [exact Hmain|].
  destruct (Hload H4) as (Hle & _). destruct (Hle eq_refl) as (Hk & Hp).
  split; [exact Hk|]. apply Hp. vm_compute. reflexivity.
Defined.

(** ** The host tool when it fails *)



(** ** The debug window and the arrays of [main] *)

(** X13. The words the function stores are made of four bytes each, so
    it may read up to three bytes past [data + len]. Called on the
    first [len] bytes of an array whose size is a multiple of 4, as
    [main] calls it on [buf] and on [hdrbuf], it stays inside the
    array: it stores at most [size / 4] words, and what it stores
    depends on the bytes of the array alone. *)
Theorem X13_isviewer_write_within (mem mem' : Z -> byte) (data len size : Z) :
  0 < len <= size -> size mod 4 = 0 -> size <= ISVIEWER_BUFFER_LEN ->
  (forall i : Z, 0 <= i < size -> mem' (data + i) = mem (data + i)) ->
  isviewer_write mem' data len = isviewer_write mem data len
  /\ exists ws : list mmio_write,
       isviewer_write mem data len = Some (ws ++ [WriteLen len])
       /\ 4 * Z.of_nat (length ws) <= size.
Proof.
  intros Hlen Hsize Hfit Hag.
  pose proof (Z.div_mod (len + 3) 4 ltac:(lia)) as Hdm.
  pose proof (Z.mod_pos_bound (len + 3) 4 ltac:(lia)) as Hmb.
  pose proof (Z.div_mod size 4 ltac:(lia)) as Hsm. rewrite Hsize in Hsm.
  set (count := (len + 3) / 4) in *.
  assert (Hc : 0 <= count) by (apply Z.div_pos; lia).
  assert (Hcs : 4 * count <= size) by lia.
  rewrite !isviewer_write_single by lia. fold count. split.
  - f_equal. f_equal. unfold chunk_words.
    apply list_fmap_ext. intros k j Hj.
    apply lookup_seqZ in Hj as [-> Hk].
    cbn beta. rewrite <- !Z.add_assoc.
    rewrite (Hag (4 * (0 + Z.of_nat k))), (Hag (4 * (0 + Z.of_nat k) + 1)),
      (Hag (4 * (0 + Z.of_nat k) + 2)), (Hag (4 * (0 + Z.of_nat k) + 3)) by lia.
    reflexivity.
  - eexists. split; [reflexivity|].
    unfold chunk_words. rewrite length_fmap, length_seqZ. lia.
Qed.

(** The call on [hdrbuf]: 256 bytes of an array of 256. *)
Lemma X13_isviewer_write_within_witness :
  let mem := fun a : Z => Z_to_byte a in
  let mem' := fun a : Z => if a <? 1256 then Z_to_byte a else x00 in
  0 < 256 <= 256 /\ 256 mod 4 = 0 /\ 256 <= ISVIEWER_BUFFER_LEN
  /\ isviewer_write mem' 1000 256 = isviewer_write mem 1000 256.
Proof.
  intros mem mem'.
  assert (H1 : 0 < 256 <= 256) by lia.
  assert (H2 : 256 mod 4 = 0) by reflexivity.
  assert (H3 : 256 <= ISVIEWER_BUFFER_LEN) by (unfold ISVIEWER_BUFFER_LEN; lia).
  split; [exact H1|]. split; [exact H2|]. split; [exact H3|].
  apply (X13_isviewer_write_within mem mem' 1000 256 256 H1 H2 H3).
  intros i Hi. unfold mem'. destruct (Z.ltb_spec (1000 + i) 1256); [reflexivity | lia].
Defined.
